(** * procm: the line parser, the sort and filter steps and the view state
      machine of the terminal process manager, embedded from [lib.ts] and
      [index.ts].

    Conventions of the embedding.

    - A JavaScript string is the list of its UTF-16 code units ([jsstring]).
    - A JavaScript number is [NaN] or an exact rational ([Fin q]).  Numerals
      denote their exact value: binary64 rounding and overflow are not part
      of the model.  Indices, lengths and the viewport height are integers
      and are modelled by [Z].
    - The host functions whose result depends on the locale tables of the
      runtime ([String.prototype.toLowerCase], [String.prototype.localeCompare])
      are fields of the class [Host]; every definition and theorem is
      parametric in them.
    - [Array.prototype.sort] is given by its contract: the order of the
      comparator, elements that compare equal in their former order.  The
      contract fixes the result for a consistent comparator; with a NaN
      among the keys of a numeric field the comparator is not consistent
      and the language leaves the order to the engine, so the statements
      on the order a sort computes assume keys that are numbers.
    - An asynchronous handler runs to completion before the next one starts;
      what the external world answers during a handler (the output of [ps],
      or an exception) is an argument of the handler.  The launch of [ps]
      itself is not listed among the effects of a handler.  The one place
      where a handler reads a variable again that another handler may have
      written during an await, the pause of a restart, is also given in its
      two pieces ([confirm_yes_begin], [confirm_yes_resume]).
    - The widgets of the screen are written and never read by the program;
      of them the state keeps the confirmation bar. *)

From Stdlib Require Import List ZArith NArith QArith Bool Lia.
From Stdlib Require Import Ascii String Sorted Permutation Lqa.
Import ListNotations.

Close Scope Q_scope.
Open Scope list_scope.

(* ------------------------------------------------------------------ *)
(** * JavaScript strings *)

Definition char := N.
Definition jsstring := list char.

(** A string literal of the source, as code units. *)
Definition js (s : string) : jsstring :=
  List.map N_of_ascii (list_ascii_of_string s).

Fixpoint str_eqb (a b : jsstring) : bool :=
  match a, b with
  | [], [] => true
  | x :: a', y :: b' => N.eqb x y && str_eqb a' b'
  | _, _ => false
  end.

(** [s.charCodeAt(i)]; [None] stands for the NaN returned out of range. *)
Definition charCodeAt (s : jsstring) (i : nat) : option N := nth_error s i.

(** [x === n] and [x !== n] for the result of [charCodeAt] and a literal. *)
Definition code_is (x : option N) (n : N) : bool :=
  match x with Some c => N.eqb c n | None => false end.

Fixpoint startsWith (f s : jsstring) : bool :=
  match f, s with
  | [], _ => true
  | _ :: _, [] => false
  | x :: f', y :: s' => N.eqb x y && startsWith f' s'
  end.

(** [s.includes(f)]: [f] occurs in [s] as a contiguous run. *)
Fixpoint includes (s f : jsstring) : bool :=
  startsWith f s ||
  match s with
  | [] => false
  | _ :: s' => includes s' f
  end.

(** [s.slice(0, -1)]. *)
Definition slice_0_m1 (s : jsstring) : jsstring := removelast s.

(** [text.split("\n")]. *)
Fixpoint split_lines_aux (cur : jsstring) (s : jsstring) : list jsstring :=
  match s with
  | [] => [List.rev cur]
  | c :: s' =>
      if N.eqb c 10 then List.rev cur :: split_lines_aux [] s'
      else split_lines_aux (c :: cur) s'
  end.

Definition split_lines (text : jsstring) : list jsstring :=
  split_lines_aux [] text.

(* ------------------------------------------------------------------ *)
(** * JavaScript numbers *)

Inductive number : Type :=
| NaN
| Fin (q : Q).

Definition num_of_Z (z : Z) : number := Fin (inject_Z z).

(** [a - b]. *)
Definition num_sub (a b : number) : number :=
  match a, b with
  | Fin x, Fin y => Fin (Qred (x - y))
  | _, _ => NaN
  end.

(** [-v]. *)
Definition num_neg (v : number) : number :=
  match v with
  | Fin x => Fin (Qopp x)
  | NaN => NaN
  end.

(** [a !== b] on numbers ([NaN] differs from everything). *)
Definition num_strict_neq (a b : number) : bool :=
  match a, b with
  | Fin x, Fin y => negb (Qeq_bool x y)
  | _, _ => true
  end.

Definition is_digit (c : char) : bool := (N.leb 48 c && N.leb c 57)%N.

Definition digit_val (c : char) : Z := Z.of_N (c - 48).

(** Value of a run of decimal digits, most significant first. *)
Definition digits_val (ds : jsstring) : Z :=
  fold_left (fun acc c => 10 * acc + digit_val c)%Z ds 0%Z.

(** Splits at the first full stop. *)
Fixpoint split_dot (s : jsstring) : jsstring * option jsstring :=
  match s with
  | [] => ([], None)
  | c :: s' =>
      if N.eqb c 46 then ([], Some s')
      else let '(i, f) := split_dot s' in (c :: i, f)
  end.

(** Unary plus on a string ([+m[1]]), that is StringToNumber, for strings
    over decimal digits and the full stop, the only ones the captures of
    [PS_REGEX] hand to it: digits, digits with a fraction, a trailing or a
    leading full stop; anything else is [NaN]. *)
Definition ToNumber (s : jsstring) : number :=
  let '(i, f) := split_dot s in
  let fr := match f with Some x => x | None => [] end in
  if forallb is_digit i && forallb is_digit fr
     && negb (Nat.eqb (List.length i + List.length fr) 0)
  then Fin (Qred (Qmake (digits_val (i ++ fr))
                        (Z.to_pos (10 ^ Z.of_nat (List.length fr)))))
  else NaN.

(** Decimal digits of a positive integer, most significant first. *)
Fixpoint digits_of_pos (fuel : nat) (z : Z) (acc : jsstring) : jsstring :=
  match fuel with
  | O => acc
  | S fuel' =>
      let acc' := (Z.to_N (z mod 10) + 48)%N :: acc in
      if (z / 10 =? 0)%Z then acc' else digits_of_pos fuel' (z / 10) acc'
  end.

Definition digits_of_Z (z : Z) : jsstring :=
  digits_of_pos (S (Z.to_nat (Z.log2 z))) z [].

(** Digits of the fraction [r / d] with [0 <= r < d], until it is exhausted. *)
Fixpoint frac_digits (fuel : nat) (r d : Z) : jsstring :=
  match fuel with
  | O => []
  | S fuel' =>
      if (r =? 0)%Z then []
      else (Z.to_N (10 * r / d) + 48)%N :: frac_digits fuel' ((10 * r) mod d) d
  end.

(** [String(n)], Number::toString in radix 10: ["NaN"], a sign, the integer
    digits and, for a value with a fraction, a full stop and its decimal
    expansion (seventeen digits at most).  The exponent forms of magnitudes
    from 1e21 and below 1e-6 are not part of the model. *)
Definition String_of_number (n : number) : jsstring :=
  match n with
  | NaN => js "NaN"
  | Fin q =>
      let a := Z.abs (Qnum q) in
      let d := Z.pos (Qden q) in
      let sign := if (Qnum q <? 0)%Z then js "-" else [] in
      let fr := frac_digits 17 (a mod d) d in
      sign ++ digits_of_Z (a / d) ++
      match fr with [] => [] | _ => 46%N :: fr end
  end.

(* ------------------------------------------------------------------ *)
(** * Regular expressions: the fragment [PS_REGEX] is written in *)

(** Character classes.  Without the [u], [i] and [s] flags a class is a set
    of code units. *)
Inductive charclass : Type :=
| Digit            (* \d *)
| Space            (* \s *)
| NonSpace         (* \S *)
| Word             (* \w *)
| AnyChar          (* .   *)
| DigitOr (c : char).  (* [\d.] and [\d:] *)

(** LineTerminator of ECMAScript. *)
Definition is_line_terminator (c : char) : bool :=
  (N.eqb c 10 || N.eqb c 13 || N.eqb c 8232 || N.eqb c 8233)%N.

(** WhiteSpace and LineTerminator of ECMAScript, the set of [\s]. *)
Definition is_space (c : char) : bool :=
  (N.eqb c 9 || N.eqb c 11 || N.eqb c 12 || N.eqb c 32 || N.eqb c 160
   || N.eqb c 5760 || (N.leb 8192 c && N.leb c 8202)
   || N.eqb c 8239 || N.eqb c 8287 || N.eqb c 12288 || N.eqb c 65279
   || is_line_terminator c)%N.

Definition is_word (c : char) : bool :=
  ((N.leb 97 c && N.leb c 122) || (N.leb 65 c && N.leb c 90)
   || is_digit c || N.eqb c 95)%N.

Definition in_class (cs : charclass) (c : char) : bool :=
  match cs with
  | Digit => is_digit c
  | Space => is_space c
  | NonSpace => negb (is_space c)
  | Word => is_word c
  | AnyChar => negb (is_line_terminator c)
  | DigitOr d => is_digit c || N.eqb c d
  end.

Inductive quantifier : Type := Star | Plus.

(** One term of the pattern: a quantified class, captured or not. *)
Inductive term : Type :=
| Rep (q : quantifier) (cs : charclass)
| Capture (q : quantifier) (cs : charclass).

(** A pattern [^ t1 t2 ... tn $]. *)
Definition regex := list term.

Section Matcher.
Context {R : Type}.

(** The greedy quantifier of the backtracking matcher: one more character
    of the class first, the continuation [k] when that fails. *)
Fixpoint greedy (cs : charclass) (k : jsstring -> jsstring -> option R)
         (acc s : jsstring) : option R :=
  match s with
  | c :: s' =>
      if in_class cs c then
        match greedy cs k (acc ++ [c]) s' with
        | Some r => Some r
        | None => k acc s
        end
      else k acc s
  | [] => k acc s
  end.

Definition repeat_class (q : quantifier) (cs : charclass)
           (k : jsstring -> jsstring -> option R) (s : jsstring) : option R :=
  greedy cs
    (fun tok rest =>
       match q, tok with
       | Plus, [] => None
       | _, _ => k tok rest
       end) [] s.
End Matcher.

(** Matches the terms in order against the whole of [s]; the captures are
    collected last first. *)
Fixpoint match_terms (ts : regex) (caps : list jsstring) (s : jsstring)
  : option (list jsstring) :=
  match ts with
  | [] => match s with [] => Some caps | _ :: _ => None end
  | Rep q cs :: ts' => repeat_class q cs (fun _ rest => match_terms ts' caps rest) s
  | Capture q cs :: ts' =>
      repeat_class q cs (fun tok rest => match_terms ts' (tok :: caps) rest) s
  end.

(** [re.exec(line)] for a pattern anchored at both ends and without flags:
    the match can only start at index 0 and must end at the end of the
    input.  The result is the array [m]: [m[0]] the matched text, [m[i]] the
    i-th capture. *)
Definition exec (re : regex) (line : jsstring) : option (list jsstring) :=
  match match_terms re [] line with
  | Some caps => Some (line :: List.rev caps)
  | None => None
  end.

(** [m[i]]. *)
Definition group (m : list jsstring) (i : nat) : jsstring := nth i m [].

(* ------------------------------------------------------------------ *)
(** * lib.ts *)

Record Process : Type := mkProcess {
  pid : number;
  ppid : number;
  cpu : number;
  mem : number;
  stat : jsstring;
  tty : jsstring;
  command : jsstring
}.

Definition PS_REGEX : regex :=
  [ Rep Star Space;
    Capture Plus Digit; Rep Plus Space;
    Capture Plus Digit; Rep Plus Space;
    Capture Plus (DigitOr 46%N); Rep Plus Space;
    Capture Plus (DigitOr 46%N); Rep Plus Space;
    Capture Plus NonSpace; Rep Plus Space;
    Capture Plus NonSpace; Rep Plus Space;
    Rep Plus Word; Rep Plus Space;
    Rep Plus Word; Rep Plus Space;
    Rep Plus Digit; Rep Plus Space;
    Rep Plus (DigitOr 58%N); Rep Plus Space;
    Rep Plus Digit; Rep Plus Space;
    Capture Plus AnyChar ].

Definition parseProcessLine (line : jsstring) : option Process :=
  if Nat.eqb (List.length line) 0 then None
  else
    match exec PS_REGEX line with
    | None => None
    | Some m =>
        let stat := group m 5 in
        let tty := group m 6 in
        let ch0 := charCodeAt stat 0 in
        if negb (str_eqb tty (js "??")) && negb (code_is ch0 83)
           && negb (code_is ch0 115) && negb (code_is ch0 73)
        then None
        else Some {| pid := ToNumber (group m 1);
                     ppid := ToNumber (group m 2);
                     cpu := ToNumber (group m 3);
                     mem := ToNumber (group m 4);
                     stat := stat;
                     tty := tty;
                     command := group m 7 |}
    end.

(** The status label shown in the STATUS column. *)
Definition statLabel (s : jsstring) : jsstring :=
  let ch := charCodeAt s 0 in
  if code_is ch 82 then js "Running"        (* R *)
  else if code_is ch 83 then js "Sleeping"  (* S *)
  else if code_is ch 68 then js "Disk"      (* D *)
  else if code_is ch 84 then js "Stopped"   (* T *)
  else if code_is ch 90 then js "Zombie"    (* Z *)
  else if code_is ch 73 then js "Idle"      (* I *)
  else s.

Inductive SortField : Type :=
| F_pid | F_cpu | F_mem | F_status | F_command.

Definition SortField_eqb (a b : SortField) : bool :=
  match a, b with
  | F_pid, F_pid | F_cpu, F_cpu | F_mem, F_mem
  | F_status, F_status | F_command, F_command => true
  | _, _ => false
  end.

Definition sortFields : list SortField :=
  [F_pid; F_cpu; F_mem; F_status; F_command].

(** The functions of the host whose tables are not part of the program. *)
Class Host : Type := {
  toLowerCase : jsstring -> jsstring;
  localeCompare : jsstring -> jsstring -> Z
}.

(** What ECMA-402 asks of [localeCompare]: a consistent comparison. *)
Class HostLaws (H : Host) : Prop := {
  localeCompare_sgn :
    forall a b, Z.sgn (localeCompare b a) = (- Z.sgn (localeCompare a b))%Z;
  localeCompare_trans :
    forall a b c,
      (localeCompare a b <= 0)%Z -> (localeCompare b c <= 0)%Z ->
      (localeCompare a c <= 0)%Z
}.

Section ArraySort.
Context {A : Type}.
Variable comparefn : A -> A -> number.

(** SortCompare of ECMAScript: a [NaN] from the comparator counts as
    [+0]; only the sign of the result is used. *)
Definition SortCompare (x y : A) : comparison :=
  match comparefn x y with
  | NaN => Eq
  | Fin v => Qcompare v 0
  end.

Fixpoint sort_insert (x : A) (l : list A) : list A :=
  match l with
  | [] => [x]
  | y :: l' =>
      match SortCompare x y with
      | Gt => y :: sort_insert x l'
      | _ => x :: l
      end
  end.

(** [arr.sort(comparefn)], as the contents of the array afterwards.  The
    language fixes the outcome for a consistent comparator: the elements
    in comparator order, those that compare equal in their former order.
    Insertion from the right computes it.  For a comparator that is not
    consistent (here: a NaN among the keys, which compares as equal to
    every key) the language leaves the order to the engine; this
    definition then gives one rearrangement, not the order of a
    particular engine, and nothing is stated on that order. *)
Fixpoint array_sort (l : list A) : list A :=
  match l with
  | [] => []
  | x :: l' => sort_insert x (array_sort l')
  end.
End ArraySort.

Section WithHost.
Context {host : Host}.

Definition compareProcs (sortBy : SortField) (sortAsc : bool)
           (a b : Process) : number :=
  let v :=
    match sortBy with
    | F_pid => num_sub (pid a) (pid b)
    | F_cpu => num_sub (cpu a) (cpu b)
    | F_mem => num_sub (mem a) (mem b)
    | F_status => num_of_Z (localeCompare (stat a) (stat b))
    | F_command => num_of_Z (localeCompare (command a) (command b))
    end in
  if sortAsc then v else num_neg v.

Definition sortProcs (procs : list Process) (sortBy : SortField)
           (sortAsc : bool) : list Process :=
  array_sort (compareProcs sortBy sortAsc) procs.
End WithHost.

(* ------------------------------------------------------------------ *)
(** * index.ts *)

(** What the outside answers while one handler runs. *)
Record World : Type := mkWorld {
  (** the text [ps] wrote, or [None] when [getProcesses] throws *)
  ps_output : option jsstring;
  (** [process.pid] *)
  selfPid : number;
  (** whether [Bun.spawn] throws in the action dispatch *)
  spawn_throws : bool
}.

(** [for (let i = 1; i < lines.length; i++)] of [getProcesses]. *)
Fixpoint collect_processes (self : number) (lines : list jsstring)
  : list Process :=
  match lines with
  | [] => []
  | line :: rest =>
      match parseProcessLine line with
      | Some p =>
          if num_strict_neq (pid p) self
          then p :: collect_processes self rest
          else collect_processes self rest
      | None => collect_processes self rest
      end
  end.

Definition getProcesses (w : World) : option (list Process) :=
  match ps_output w with
  | None => None
  | Some text => Some (collect_processes (selfPid w) (tl (split_lines text)))
  end.

Inductive Action : Type := A_kill | A_term | A_restart.

Record Confirm : Type := mkConfirm {
  c_pid : number;
  c_cmd : jsstring;
  c_action : Action
}.

(** The variables of [main] and the module-level sort state. *)
Record State : Type := mkState {
  sortBy : SortField;
  sortAsc : bool;
  displayed : list Process;
  selected : Z;
  scrollOffset : Z;
  filter : jsstring;
  filtering : bool;
  confirm : option Confirm;
  refreshing : bool;
  destroyed : bool;
  viewportH : Z;
  confirmText : jsstring;
  confirmBarVisible : bool
}.

Definition set_scrollOffset (v : Z) (st : State) : State :=
  mkState (sortBy st) (sortAsc st) (displayed st) (selected st) v (filter st)
          (filtering st) (confirm st) (refreshing st) (destroyed st)
          (viewportH st) (confirmText st) (confirmBarVisible st).

Definition set_selected (v : Z) (st : State) : State :=
  mkState (sortBy st) (sortAsc st) (displayed st) v (scrollOffset st)
          (filter st) (filtering st) (confirm st) (refreshing st)
          (destroyed st) (viewportH st) (confirmText st) (confirmBarVisible st).

Definition set_displayed (v : list Process) (st : State) : State :=
  mkState (sortBy st) (sortAsc st) v (selected st) (scrollOffset st)
          (filter st) (filtering st) (confirm st) (refreshing st)
          (destroyed st) (viewportH st) (confirmText st) (confirmBarVisible st).

Definition set_sort (f : SortField) (asc : bool) (st : State) : State :=
  mkState f asc (displayed st) (selected st) (scrollOffset st)
          (filter st) (filtering st) (confirm st) (refreshing st)
          (destroyed st) (viewportH st) (confirmText st) (confirmBarVisible st).

Definition set_filter (v : jsstring) (st : State) : State :=
  mkState (sortBy st) (sortAsc st) (displayed st) (selected st)
          (scrollOffset st) v (filtering st) (confirm st) (refreshing st)
          (destroyed st) (viewportH st) (confirmText st) (confirmBarVisible st).

Definition set_filtering (v : bool) (st : State) : State :=
  mkState (sortBy st) (sortAsc st) (displayed st) (selected st)
          (scrollOffset st) (filter st) v (confirm st) (refreshing st)
          (destroyed st) (viewportH st) (confirmText st) (confirmBarVisible st).

Definition set_refreshing (v : bool) (st : State) : State :=
  mkState (sortBy st) (sortAsc st) (displayed st) (selected st)
          (scrollOffset st) (filter st) (filtering st) (confirm st) v
          (destroyed st) (viewportH st) (confirmText st) (confirmBarVisible st).

Definition set_destroyed (v : bool) (st : State) : State :=
  mkState (sortBy st) (sortAsc st) (displayed st) (selected st)
          (scrollOffset st) (filter st) (filtering st) (confirm st)
          (refreshing st) v (viewportH st) (confirmText st)
          (confirmBarVisible st).

(** [confirm = null; confirmBar.visible = false]. *)
Definition clear_confirm (st : State) : State :=
  mkState (sortBy st) (sortAsc st) (displayed st) (selected st)
          (scrollOffset st) (filter st) (filtering st) None (refreshing st)
          (destroyed st) (viewportH st) (confirmText st) false.

(** [confirm = {...}; confirmText.content = ...; confirmBar.visible = true]. *)
Definition ask_confirm (c : Confirm) (text : jsstring) (st : State) : State :=
  mkState (sortBy st) (sortAsc st) (displayed st) (selected st)
          (scrollOffset st) (filter st) (filtering st) (Some c) (refreshing st)
          (destroyed st) (viewportH st) text true.

Definition len (st : State) : Z := Z.of_nat (List.length (displayed st)).

Definition clampScroll (st : State) : State :=
  let maxOffset := Z.max 0 (len st - viewportH st) in
  let st1 := if (scrollOffset st >? maxOffset)%Z
             then set_scrollOffset maxOffset st else st in
  if (scrollOffset st1 <? 0)%Z then set_scrollOffset 0 st1 else st1.

Definition ensureVisible (st : State) : State :=
  let st1 :=
    if (selected st <? scrollOffset st)%Z
    then set_scrollOffset (selected st) st
    else if (selected st >=? scrollOffset st + viewportH st)%Z
         then set_scrollOffset (selected st - viewportH st + 1) st
         else st in
  clampScroll st1.

(** [updateUI] and the painting of [renderRows] only write to widgets that
    the program never reads back; of the two, the state keeps what
    [renderRows] does first, the call of [ensureVisible]. *)
Definition renderRows (st : State) : State := ensureVisible st.

(** How a handler ends: it returns, an exception leaves it (the promise of
    the async function is rejected), or the process exits. *)
Inductive Outcome : Type :=
| Returned
| Thrown
| Exited (code : Z).

(** What a handler asks of the outside, in order: the commands of the
    action dispatch and its pause, the teardown of the renderer and the
    error log.  The [Bun.spawn(["ps", ...])] of [getProcesses], which
    every refresh cycle that is not skipped launches, is not listed: it is
    present through its answer, the [ps_output] of the [World]. *)
Inductive Effect : Type :=
| E_spawn (argv : list jsstring)
| E_sleep (ms : Z)
| E_renderer_destroy
| E_console_error.

Record KeyEvent : Type := mkKey {
  name : jsstring;
  sequence : option jsstring;
  ctrl : bool;
  meta : bool
}.

(** [displayed[i]]: [None] is [undefined]. *)
Definition at_index (l : list Process) (i : Z) : option Process :=
  if (i <? 0)%Z then None else nth_error l (Z.to_nat i).

Section WithHostApp.
Context {host : Host}.

(** The predicate of [sorted.filter(...)] in [refresh], for the lowered
    query [f]. *)
Definition matchesFilter (f : jsstring) (p : Process) : bool :=
  includes (toLowerCase (command p)) f
  || includes (String_of_number (pid p)) f
  || includes (toLowerCase (statLabel (stat p))) f.

(** The filter step of [refresh]: [if (filter) ... else displayed = sorted]. *)
Definition applyFilter (filter : jsstring) (sorted : list Process)
  : list Process :=
  match filter with
  | _ :: _ => List.filter (matchesFilter (toLowerCase filter)) sorted
  | [] => sorted
  end.

Definition refresh (w : World) (st : State) : State * Outcome :=
  if refreshing st || destroyed st then (st, Returned)
  else
    let st := set_refreshing true st in
    match getProcesses w with
    | None => (set_refreshing false st, Thrown)
    | Some procs =>
        let sorted := sortProcs procs (sortBy st) (sortAsc st) in
        let st := set_displayed (applyFilter (filter st) sorted) st in
        let st :=
          if (selected st >=? len st)%Z
          then set_selected (Z.max 0 (len st - 1)) st else st in
        let st := renderRows st in
        (set_refreshing false st, Returned)
    end.

(** [try { Bun.spawn(kill...); if restart {sleep; Bun.spawn(sh...)} } catch {}]
    for the confirmation [c] read when the handler starts, and with no
    other handler running during the pause: after the pause the code reads
    the variable [confirm] again, see [confirm_yes_resume]. *)
Definition dispatch (w : World) (c : Confirm) : list Effect :=
  let sig := match c_action c with A_kill => js "-9" | _ => js "-15" end in
  let kill := E_spawn [js "kill"; sig; String_of_number (c_pid c)] in
  if spawn_throws w then [kill]
  else
    match c_action c with
    | A_restart => [kill; E_sleep 500; E_spawn [js "sh"; js "-c"; c_cmd c]]
    | _ => [kill]
    end.

Definition confirmPrompt (what : jsstring) (p : Process) : jsstring :=
  what ++ js " PID " ++ String_of_number (pid p) ++ js " ("
       ++ firstn 50 (command p) ++ js ")? [y/n]".

(** The cases ["K"], ["t"] and ["r"] of the key switch. *)
Definition requestAction (a : Action) (what : jsstring) (st : State) : State :=
  match at_index (displayed st) (selected st) with
  | Some p => ask_confirm (mkConfirm (pid p) (command p) a)
                          (confirmPrompt what p) st
  | None => st
  end.

(** [sortFields.indexOf(f)]. *)
Fixpoint indexOf_from (l : list SortField) (f : SortField) (i : Z) : Z :=
  match l with
  | [] => (-1)%Z
  | x :: l' => if SortField_eqb x f then i else indexOf_from l' f (i + 1)
  end.

Definition is_key (k : KeyEvent) (s : string) : bool := str_eqb (name k) (js s).

(** The listener of ["keypress"]. *)
Definition keypress (k : KeyEvent) (w : World) (st : State)
  : State * list Effect * Outcome :=
  match confirm st with
  | Some c =>
      (* Confirm mode *)
      if is_key k "y" then
        let eff := dispatch w c in
        let '(st', o) := refresh w (clear_confirm st) in
        (st', eff, o)
      else (clear_confirm st, [], Returned)
  | None =>
      if filtering st then
        (* Filter mode *)
        if is_key k "return" then
          let '(st', o) := refresh w (set_filtering false st) in (st', [], o)
        else if is_key k "escape" then
          let '(st', o) :=
            refresh w (set_filter [] (set_filtering false st)) in (st', [], o)
        else if is_key k "backspace" then
          let '(st', o) :=
            refresh w (set_filter (slice_0_m1 (filter st)) st) in (st', [], o)
        else
          match sequence k with
          | Some [ch] =>
              if negb (ctrl k) && negb (meta k) then
                let '(st', o) :=
                  refresh w (set_filter (filter st ++ [ch]) st) in (st', [], o)
              else (st, [], Returned)
          | _ => (st, [], Returned)
          end
      else
        (* Normal mode *)
        if is_key k "q" then
          (set_destroyed true st, [E_renderer_destroy], Exited 0)
        else if is_key k "j" || is_key k "down" then
          if (selected st <? len st - 1)%Z
          then (renderRows (set_selected (selected st + 1) st), [], Returned)
          else (st, [], Returned)
        else if is_key k "k" || is_key k "up" then
          if (selected st >? 0)%Z
          then (renderRows (set_selected (selected st - 1) st), [], Returned)
          else (st, [], Returned)
        else if is_key k "d" then
          (renderRows
             (set_selected
                (Z.min (len st - 1) (selected st + viewportH st / 2)) st),
           [], Returned)
        else if is_key k "u" then
          (renderRows
             (set_selected (Z.max 0 (selected st - viewportH st / 2)) st),
           [], Returned)
        else if is_key k "g" then
          (renderRows (set_selected 0 st), [], Returned)
        else if is_key k "G" then
          (renderRows (set_selected (Z.max 0 (len st - 1)) st), [], Returned)
        else if is_key k "/" then
          (set_filtering true st, [], Returned)
        else if is_key k "s" then
          let i := indexOf_from sortFields (sortBy st) 0 in
          let f := nth (Z.to_nat (Z.rem (i + 1) (Z.of_nat (List.length sortFields))))
                       sortFields F_pid in
          let asc := SortField_eqb f F_pid || SortField_eqb f F_command in
          let '(st', o) := refresh w (set_sort f asc st) in (st', [], o)
        else if is_key k "S" then
          let '(st', o) := refresh w (set_sort (sortBy st) (negb (sortAsc st)) st)
          in (st', [], o)
        else if is_key k "K" then
          (requestAction A_kill (js "SIGKILL") st, [], Returned)
        else if is_key k "t" then
          (requestAction A_term (js "SIGTERM") st, [], Returned)
        else if is_key k "r" then
          (requestAction A_restart (js "Restart") st, [], Returned)
        else (st, [], Returned)
  end.

(** The callback of [setInterval]. *)
Definition tick (w : World) (st : State) : State * Outcome :=
  if negb (filtering st) && negb (match confirm st with Some _ => true | None => false end)
     && negb (destroyed st)
  then refresh w st else (st, Returned).

(** The variables of [main] as declared, for a terminal of [height] rows. *)
Definition initial (height : Z) : State :=
  mkState F_cpu false [] 0 0 [] false None false false (height - 5) [] false.

(** [main().catch(err => { console.error(err); process.exit(1) })] up to
    the first [await refresh()]; after it the timer and the key listener
    drive the program. *)
Definition main (height : Z) (w : World) : State * list Effect * Outcome :=
  match refresh w (initial height) with
  | (st, Thrown) => (st, [E_console_error], Exited 1)
  | (st, o) => (st, [], o)
  end.
End WithHostApp.

(* ------------------------------------------------------------------ *)
(** * The grammar of a [ps] line, stated without the matcher *)

Definition term_class (t : term) : charclass :=
  match t with Rep _ cs | Capture _ cs => cs end.

Definition term_quant (t : term) : quantifier :=
  match t with Rep q _ | Capture q _ => q end.

(** A token fits a term: all its characters are in the class, and it is not
    empty under [+]. *)
Definition fits (t : term) (tok : jsstring) : bool :=
  forallb (in_class (term_class t)) tok
  && match term_quant t, tok with
     | Plus, [] => false
     | _, _ => true
     end.

(** A line conforms to a pattern when it is the concatenation of one token
    for each term, in order. *)
Definition conforms (re : regex) (line : jsstring) : Prop :=
  exists toks, Forall2 (fun t tok => fits t tok = true) re toks
               /\ line = List.concat toks.

(** The pieces of a line of [ps -eo pid,ppid,pcpu,pmem,stat,tty,lstart,command]:
    the seven fields the parser keeps, the five tokens of the start time
    and the blanks between them. *)
Record PsLine : Type := mkPsLine {
  lead : jsstring;
  pidS : jsstring;     sp1 : jsstring;
  ppidS : jsstring;    sp2 : jsstring;
  cpuS : jsstring;     sp3 : jsstring;
  memS : jsstring;     sp4 : jsstring;
  statS : jsstring;    sp5 : jsstring;
  ttyS : jsstring;     sp6 : jsstring;
  wdayS : jsstring;    sp7 : jsstring;
  monthS : jsstring;   sp8 : jsstring;
  mdayS : jsstring;    sp9 : jsstring;
  timeS : jsstring;    sp10 : jsstring;
  yearS : jsstring;    sp11 : jsstring;
  commandS : jsstring
}.

Definition tokens (l : PsLine) : list jsstring :=
  [ lead l; pidS l; sp1 l; ppidS l; sp2 l; cpuS l; sp3 l; memS l; sp4 l;
    statS l; sp5 l; ttyS l; sp6 l; wdayS l; sp7 l; monthS l; sp8 l;
    mdayS l; sp9 l; timeS l; sp10 l; yearS l; sp11 l; commandS l ].

Definition render (l : PsLine) : jsstring := List.concat (tokens l).

(** Every piece fits its term of [PS_REGEX]. *)
Definition wf (l : PsLine) : Prop :=
  Forall2 (fun t tok => fits t tok = true) PS_REGEX (tokens l).

(** The command does not begin with a blank. *)
Definition command_starts (l : PsLine) : Prop :=
  match commandS l with
  | c :: _ => is_space c = false
  | [] => True
  end.

(** The background policy, on the status and terminal of a line. *)
Definition kept (status terminal : jsstring) : Prop :=
  terminal = js "??"
  \/ exists c rest, status = c :: rest /\ (c = 83 \/ c = 115 \/ c = 73)%N.

(** The record of a line whose pieces are [l]. *)
Definition record_of (l : PsLine) : Process :=
  {| pid := ToNumber (pidS l);
     ppid := ToNumber (ppidS l);
     cpu := ToNumber (cpuS l);
     mem := ToNumber (memS l);
     stat := statS l;
     tty := ttyS l;
     command := commandS l |}.

(* ------------------------------------------------------------------ *)
(** * Definitions for the statements: data of the tests and scenarios,
      the host used to run them, and the notions the theorems speak of *)

(** The classes of the fields and of the start time hold no blank. *)
Definition blank_free (cs : charclass) : bool :=
  match cs with
  | Digit | NonSpace | Word => true
  | DigitOr d => negb (is_space d)
  | Space | AnyChar => false
  end.

(** The text after a token does not continue it. *)
Definition stops (cs : charclass) (rest : jsstring) : Prop :=
  match rest with
  | [] => True
  | c :: _ => in_class cs c = false
  end.

(** The captured tokens, in the order of the pattern. *)
Fixpoint captured (ts : regex) (toks : list jsstring) : list jsstring :=
  match ts, toks with
  | Capture _ _ :: ts', tok :: toks' => tok :: captured ts' toks'
  | Rep _ _ :: ts', _ :: toks' => captured ts' toks'
  | _, _ => []
  end.

(** Every token is as long as its class allows in front of [tail]. *)
Fixpoint maximal (ts : regex) (toks : list jsstring) (tail : jsstring) : Prop :=
  match ts, toks with
  | t :: ts', tok :: toks' =>
      stops (term_class t) (List.concat toks' ++ tail) /\ maximal ts' toks' tail
  | _, _ => True
  end.

(** [PS_REGEX] up to the year of the start time, and its end: the blanks
    before the command and the command. *)
Definition ps_front : regex := firstn 22 PS_REGEX.

Definition ps_back : regex := skipn 22 PS_REGEX.

(** The line of the test "parses a valid ps output line", by its pieces. *)
Definition syslogd_line : PsLine :=
  mkPsLine (js "  ") (js "123") (js "     ") (js "1") (js "   ")
           (js "2.3") (js "  ") (js "0.5") (js " ") (js "Ss") (js "   ")
           (js "??") (js "  ") (js "Thu") (js " ") (js "Feb") (js " ")
           (js "20") (js " ") (js "14:30:00") (js " ") (js "2026") (js " ")
           (js "/usr/sbin/syslogd").

(** The line of the test "excludes running process with a TTY". *)
Definition vim_line : jsstring :=
  js "  500     1   5.2  1.3 R+   ttys000  Thu Feb 20 14:30:00 2026 vim test.txt".

Definition ascii_lower (c : char) : char :=
  if (N.leb 65 c && N.leb c 90)%N then (c + 32)%N else c.

(** Comparison by code units, as -1, 0 or 1. *)
Fixpoint code_unit_compare (a b : jsstring) : Z :=
  match a, b with
  | [], [] => 0
  | [], _ :: _ => -1
  | _ :: _, [] => 1
  | x :: a', y :: b' =>
      match N.compare x y with
      | Eq => code_unit_compare a' b'
      | Lt => -1
      | Gt => 1
      end
  end.

(** Lower case of the letters A to Z only, order by code units: what the
    host functions do on ASCII text in a locale without tailoring of case;
    used wherever a statement is run on data. *)
#[export] Instance asciiHost : Host :=
  {| toLowerCase := List.map ascii_lower;
     localeCompare := code_unit_compare |}.

(** The glossary of status labels: first character and label. *)
Definition status_labels : list (char * jsstring) :=
  [ (82%N, js "Running"); (83%N, js "Sleeping"); (68%N, js "Disk");
    (84%N, js "Stopped"); (90%N, js "Zombie"); (73%N, js "Idle") ].

(** The decimal numeral of a natural number: a run of decimal digits that
    denotes it, without a leading zero but for zero itself. *)
Definition decimal_numeral (n : Z) (ds : jsstring) : Prop :=
  ds <> [] /\ forallb is_digit ds = true /\ digits_val ds = n
  /\ (hd 0%N ds = 48%N -> ds = [48%N]).

(** The label of the glossary for a status: the label listed for its first
    character, and the status itself when none is listed (or the status is
    empty). *)
Definition glossary_label (s lbl : jsstring) : Prop :=
  match s with
  | [] => lbl = []
  | c :: _ =>
      In (c, lbl) status_labels
      \/ ((forall l, ~ In (c, l) status_labels) /\ lbl = s)
  end.

(** A line of the grammar with status "i" on a terminal. *)
Definition idle_lower_line : jsstring :=
  js "  400     1   0.0  0.1 i    ttys000  Thu Feb 20 14:30:00 2026 /bin/zsh".

(** [f] occurs in [s]. *)
Definition occurs (f s : jsstring) : Prop :=
  exists a b, s = a ++ f ++ b.

(** The records of the scenario: syslogd and zsh. *)
Definition scenario_records : list Process :=
  [ mkProcess (Fin 1) (Fin 0) (Fin 0) (Fin 0) (js "Ss") (js "??")
              (js "/usr/sbin/syslogd");
    mkProcess (Fin 2) (Fin 0) (Fin 0) (Fin 0) (js "Ss") (js "??")
              (js "/bin/zsh") ].

(** [x] sorts strictly before [y]. *)
Definition precedes {A : Type} (comparefn : A -> A -> number) (x y : A)
  : Prop :=
  SortCompare comparefn x y = Lt.

(** No two elements of the list compare as equal. *)
Fixpoint tie_free {A : Type} (comparefn : A -> A -> number) (l : list A)
  : Prop :=
  match l with
  | [] => True
  | x :: l' =>
      Forall (fun y => SortCompare comparefn x y <> Eq) l'
      /\ tie_free comparefn l'
  end.

(** [makeProc] of the tests: the defaults with a pid and a cpu share. *)
Definition makeProc (p c : Q) : Process :=
  mkProcess (Fin p) (Fin 0) (Fin c) (Fin 0) (js "Ss") (js "??")
            (js "/bin/test").

(** The records of the scenario "sorts by CPU descending". *)
Definition cpu_records : list Process :=
  [makeProc 1 5; makeProc 2 50; makeProc 3 20].

(** Two records with the same cpu share. *)
Definition tied_records : list Process :=
  [makeProc 1 5; makeProc 2 5].

(** The bounds of the selection and of the scroll offset. *)
Definition view_inv (st : State) : Prop :=
  (0 <= selected st <= Z.max 0 (len st - 1))%Z
  /\ (0 <= scrollOffset st <= Z.max 0 (len st - viewportH st))%Z
  /\ (scrollOffset st <= selected st <= scrollOffset st + viewportH st - 1)%Z.

(** The keys of navigation: line down and up, half page down and up, top
    and bottom. *)
Definition navigation_keys : list jsstring :=
  [js "j"; js "down"; js "k"; js "up"; js "d"; js "u"; js "g"; js "G"].

(** The state after a sequence of key presses. *)
Fixpoint run_keys {host : Host} (ks : list KeyEvent) (w : World) (st : State)
  : State :=
  match ks with
  | [] => st
  | k :: ks' => run_keys ks' w (fst (fst (keypress k w st)))
  end.

(** The cycle of the sort fields: pid, cpu, mem, status, command and back
    to pid. *)
Definition cycle_successor (f : SortField) : SortField :=
  match f with
  | F_pid => F_cpu
  | F_cpu => F_mem
  | F_mem => F_status
  | F_status => F_command
  | F_command => F_pid
  end.

(** A key press that carries only a name. *)
Definition key_named (s : string) : KeyEvent := mkKey (js s) None false false.

(** A world in which [getProcesses] throws. *)
Definition failing_world : World := mkWorld None (Fin 4242) false.

(** A world in which [ps] prints its header and no process. *)
Definition idle_world : World :=
  mkWorld (Some (js "  PID  PPID  %CPU %MEM STAT TT       LSTART                    COMMAND"))
          (Fin 4242) false.

(** A world in which [ps] prints the header and the syslogd line. *)
Definition syslogd_world : World :=
  mkWorld
    (Some (js "  PID  PPID  %CPU %MEM STAT TT       LSTART                    COMMAND"
           ++ [10%N] ++ render syslogd_line))
    (Fin 4242) false.

(** A state with a pending confirmation for the one record shown. *)
Definition confirming_state : State :=
  fst (fst (keypress (key_named "K") syslogd_world
                     (fst (fst (main 29 syslogd_world))))).

(* ------------------------------------------------------------------ *)
(** * Definitions for the further properties *)

(** [x] does not sort after [y]. *)
Definition in_order {A : Type} (comparefn : A -> A -> number) (x y : A)
  : Prop :=
  SortCompare comparefn x y <> Gt.

(** The sort key of a record is a number, for the numeric fields. *)
Definition key_defined (f : SortField) (p : Process) : Prop :=
  match f with
  | F_pid => pid p <> NaN
  | F_cpu => cpu p <> NaN
  | F_mem => mem p <> NaN
  | F_status | F_command => True
  end.

(** The key of a numeric sort field. *)
Definition num_key (f : SortField) (p : Process) : option number :=
  match f with
  | F_pid => Some (pid p)
  | F_cpu => Some (cpu p)
  | F_mem => Some (mem p)
  | F_status | F_command => None
  end.

(** Three records, two of them with the same cpu share. *)
Definition mixed_records : list Process :=
  [makeProc 1 5; makeProc 2 50; makeProc 3 5].

(** The numeric sort key of the record has the value [v]. *)
Definition key_is (f : SortField) (v : Q) (p : Process) : bool :=
  match num_key f p with
  | Some (Fin x) => Qeq_bool x v
  | _ => false
  end.

(** [p] picks records that tie with one another under the comparator. *)
Definition tie_class {A : Type} (comparefn : A -> A -> number)
           (p : A -> bool) : Prop :=
  forall a b, p a = true -> p b = true -> SortCompare comparefn a b = Eq.

(** [key_defined], as a test. *)
Definition has_key (f : SortField) (p : Process) : bool :=
  match num_key f p with
  | Some NaN => false
  | _ => true
  end.

(** The syslogd line with other blanks and another start time. *)
Definition syslogd_line_respaced : PsLine :=
  mkPsLine [] (js "123") (js " ") (js "1") (js " ")
           (js "2.3") (js " ") (js "0.5") [9%N] (js "Ss") (js " ")
           (js "??") (js " ") (js "Mon") (js " ") (js "Jan") (js "  ")
           (js "1") (js " ") (js "00:00:01") (js " ") (js "2025") (js "   ")
           (js "/usr/sbin/syslogd").

(** What [ps] prints when the program runs as pid 4242: the header, the
    syslogd line and the line of the program itself. *)
Definition self_text : jsstring :=
  js "  PID  PPID  %CPU %MEM STAT TT       LSTART                    COMMAND"
  ++ [10%N] ++ render syslogd_line ++ [10%N]
  ++ js " 4242     1   0.3  0.1 S    ??  Thu Feb 20 14:30:00 2026 bun procm"
  ++ [10%N].

Definition self_world : World := mkWorld (Some self_text) (Fin 4242) false.

(* ------------------------------------------------------------------ *)
(** * lib.ts: colours and helpers *)

(** The palette [c]. *)
Module c.
Definition bg : jsstring := js "#1a1b26".
Definition bgAlt : jsstring := js "#24283b".
Definition bgHl : jsstring := js "#364a82".
Definition border : jsstring := js "#565f89".
Definition text : jsstring := js "#c0caf5".
Definition dim : jsstring := js "#565f89".
Definition muted : jsstring := js "#a9b1d6".
Definition green : jsstring := js "#9ece6a".
Definition red : jsstring := js "#f7768e".
Definition yellow : jsstring := js "#e0af68".
Definition blue : jsstring := js "#7aa2f7".
Definition cyan : jsstring := js "#7dcfff".
Definition magenta : jsstring := js "#bb9af7".
Definition orange : jsstring := js "#ff9e64".
End c.

(** [s.length]. *)
Definition str_length (s : jsstring) : Z := Z.of_nat (List.length s).

(** [s.slice(0, e)]: a negative end counts from the end of the string. *)
Definition slice_0 (s : jsstring) (e : Z) : jsstring :=
  let to := if (e <? 0)%Z then Z.max (str_length s + e) 0
            else Z.min e (str_length s) in
  firstn (Z.to_nat to) s.

(** [s.padEnd(n)] and [s.padStart(n)], with spaces. *)
Definition padEnd (s : jsstring) (n : Z) : jsstring :=
  s ++ repeat 32%N (Z.to_nat (n - str_length s)).

Definition padStart (s : jsstring) (n : Z) : jsstring :=
  repeat 32%N (Z.to_nat (n - str_length s)) ++ s.

Definition pad (s : jsstring) (n : Z) : jsstring :=
  if (str_length s >? n)%Z then slice_0 s (n - 1) ++ js "~" else padEnd s n.

Definition rpad (s : jsstring) (n : Z) : jsstring :=
  if (str_length s >? n)%Z then slice_0 s (n - 1) ++ js "~" else padStart s n.

(** [v > q] for a number and a literal: false on NaN. *)
Definition num_gt (v : number) (q : Q) : bool :=
  match v with
  | Fin x => negb (Qle_bool x q)
  | NaN => false
  end.

Definition cpuColor (v : number) : jsstring :=
  if num_gt v 50 then c.red
  else if num_gt v 20 then c.orange
  else if num_gt v 5 then c.yellow
  else c.green.

Definition memColor (v : number) : jsstring :=
  if num_gt v 30 then c.red
  else if num_gt v 10 then c.orange
  else if num_gt v 3 then c.yellow
  else c.green.

Definition statColor (s : jsstring) : jsstring :=
  let ch := charCodeAt s 0 in
  if code_is ch 82 then c.green        (* R *)
  else if code_is ch 84 then c.yellow  (* T *)
  else if code_is ch 90 then c.red     (* Z *)
  else if code_is ch 68 then c.orange  (* D *)
  else c.dim.

(** How loud a colour of the load scale is: green, yellow, orange, red. *)
Definition severity (colour : jsstring) : Z :=
  if str_eqb colour c.red then 3
  else if str_eqb colour c.orange then 2
  else if str_eqb colour c.yellow then 1
  else 0.

(** [x.toFixed(f)] on the exact value: the sign, then the integer [n]
    nearest to [|x| * 10^f] (the larger one on a tie) written with at least
    [f + 1] digits and a full stop before the last [f].  The value is the
    exact one of the model: the distance between a decimal numeral and its
    binary64 number, which can move a tie, and the exponent form of
    magnitudes from 1e21 are not part of the model. *)
Definition toFixed (x : number) (f : nat) : jsstring :=
  match x with
  | NaN => js "NaN"
  | Fin q =>
      let a := Z.abs (Qnum q) in
      let d := Z.pos (Qden q) in
      let n := ((2 * a * 10 ^ Z.of_nat f + d) / (2 * d))%Z in
      let m := digits_of_Z n in
      let m := repeat 48%N (S f - List.length m) ++ m in
      let k := List.length m in
      (if (Qnum q <? 0)%Z then js "-" else [])
      ++ match f with
         | O => m
         | S _ => firstn (k - f) m ++ 46%N :: skipn (k - f) m
         end
  end.

(* ------------------------------------------------------------------ *)
(** * index.ts: columns and rows *)

Module Column.
Record t : Type := mk {
  label : jsstring;
  w : Z;
  right : bool;
  val : Process -> jsstring;
  color : Process -> jsstring
}.
End Column.

Definition cols : list Column.t :=
  [ Column.mk (js "PID") 7 true
              (fun p => String_of_number (pid p)) (fun _ => c.cyan);
    Column.mk (js "PPID") 7 true
              (fun p => String_of_number (ppid p)) (fun _ => c.dim);
    Column.mk (js "CPU%") 7 true
              (fun p => toFixed (cpu p) 1) (fun p => cpuColor (cpu p));
    Column.mk (js "MEM%") 7 true
              (fun p => toFixed (mem p) 1) (fun p => memColor (mem p));
    Column.mk (js "STATUS") 10 false
              (fun p => statLabel (stat p)) (fun p => statColor (stat p));
    Column.mk (js "COMMAND") 0 false
              (fun p => command p) (fun _ => c.text) ].

(** A text cell: its content, its foreground and whether it is bold
    ([attributes] is [TextAttributes.BOLD] or 0). *)
Record Cell : Type := mkCell {
  content : jsstring;
  fg : jsstring;
  attributes : bool
}.

(** A row of the pool: the box (shown or not, its background) and its
    cells. *)
Record RowHandle : Type := mkRow {
  visible : bool;
  backgroundColor : jsstring;
  cells : list Cell
}.

(** [createRow(i)]: a box on the plain background with one empty cell for
    each column. *)
Definition createRow : RowHandle :=
  mkRow true c.bg (List.map (fun _ => mkCell [] c.text false) cols).

(** [ensurePoolSize(n)]. *)
Definition ensurePoolSize (rowPool : list RowHandle) (n : Z) : list RowHandle :=
  rowPool
  ++ repeat createRow (Z.to_nat (n - Z.of_nat (List.length rowPool))).

(** The text of a cell of [renderRows]: the value, fitted to the width of
    the column when it has one. *)
Definition cellText (col : Column.t) (p : Process) : jsstring :=
  let raw := Column.val col p in
  if (Column.w col >? 0)%Z
  then (if Column.right col then rpad raw (Column.w col)
        else pad raw (Column.w col))
  else raw.

(** The loop over the columns of [renderRows]: [row.cells[j]] is written
    for each column; [None] when the row has no such cell (a TypeError). *)
Fixpoint paintCells (p : Process) (sel : bool) (columns : list Column.t)
         (old : list Cell) : option (list Cell) :=
  match columns, old with
  | [], rest => Some rest
  | _ :: _, [] => None
  | col :: columns', _ :: old' =>
      match paintCells p sel columns' old' with
      | Some cs =>
          Some (mkCell (cellText col p)
                       (if sel then js "#ffffff" else Column.color col p)
                       sel :: cs)
      | None => None
      end
  end.

(** One turn of the loop over the rows of [renderRows], for the row [vi]
    of the viewport; [None] when it reads a record that is not there (the
    value of a column of [undefined] is a TypeError). *)
Definition paintRow (st : State) (visibleCount vi : Z) (row : RowHandle)
  : option RowHandle :=
  if (vi >=? visibleCount)%Z
  then Some (mkRow false (backgroundColor row) (cells row))
  else
    let di := (scrollOffset st + vi)%Z in
    match at_index (displayed st) di with
    | None => None
    | Some p =>
        let sel := (di =? selected st)%Z in
        let bg := if sel then c.bgHl
                  else if (Z.rem di 2 =? 0)%Z then c.bg else c.bgAlt in
        match paintCells p sel cols (cells row) with
        | Some cs => Some (mkRow true bg cs)
        | None => None
        end
    end.

(** [for (let vi = 0; vi < viewportH; vi++)], from [vi] on, for [n] more
    turns; [None] also when [rowPool[vi]] is not there. *)
Fixpoint paintLoop (st : State) (visibleCount : Z) (n : nat) (vi : Z)
         (rowPool : list RowHandle) : option (list RowHandle) :=
  match n with
  | O => Some rowPool
  | S n' =>
      match rowPool with
      | [] => None
      | row :: rest =>
          match paintRow st visibleCount vi row with
          | None => None
          | Some row' =>
              match paintLoop st visibleCount n' (vi + 1) rest with
              | Some rows => Some (row' :: rows)
              | None => None
              end
          end
      end
  end.

(** [renderRows] with the rows it paints: the state after [ensureVisible]
    and the pool after the loop. *)
Definition renderRows_pool (st : State) (rowPool : list RowHandle)
  : State * option (list RowHandle) :=
  let st := ensureVisible st in
  let visibleCount := Z.min (viewportH st) (len st - scrollOffset st) in
  let rowPool := ensurePoolSize rowPool (viewportH st) in
  (st, paintLoop st visibleCount (Z.to_nat (viewportH st)) 0 rowPool).

(** Every row of the pool has a cell for each column. *)
Definition pool_ok (rowPool : list RowHandle) : Prop :=
  Forall (fun row => List.length (cells row) = List.length cols) rowPool.

(** What the row [vi] of the viewport has to look like: the record at
    [scrollOffset + vi] when there is one, in its cells, highlighted when
    it is the selected one, striped by the parity of its index otherwise;
    hidden when the list ends before it. *)
Definition row_shows (st : State) (vi : Z) (row : RowHandle) : Prop :=
  let di := (scrollOffset st + vi)%Z in
  match at_index (displayed st) di with
  | Some p =>
      let sel := (di =? selected st)%Z in
      visible row = true
      /\ backgroundColor row
         = (if sel then c.bgHl
            else if (Z.rem di 2 =? 0)%Z then c.bg else c.bgAlt)
      /\ cells row
         = List.map (fun col =>
                       mkCell (cellText col p)
                              (if sel then js "#ffffff"
                               else Column.color col p)
                              sel) cols
  | None => visible row = false
  end.

(** A state with three records in a viewport of two rows, the last record
    selected. *)
Definition three_in_two : State :=
  mkState F_pid true [makeProc 1 5; makeProc 2 50; makeProc 3 20]
          2 0 [] false None false false 2 [] false.

(* ------------------------------------------------------------------ *)
(** * Runs of the program *)




(** The variables in a refresh cycle after the snapshot [procs] has come
    and before the rows are painted. *)
Definition after_fetch {host : Host} (procs : list Process) (st : State)
  : State :=
  let st1 :=
    set_displayed
      (applyFilter (filter st) (sortProcs procs (sortBy st) (sortAsc st)))
      st in
  if (selected st1 >=? len st1)%Z
  then set_selected (Z.max 0 (len st1 - 1)) st1 else st1.




(** A key press of one printable character. *)
Definition key_char (ch : char) : KeyEvent := mkKey [ch] (Some [ch]) false false.

(** A state in filter mode with the text "sy". *)
Definition editing_state : State :=
  mkState F_cpu false [] 0 0 (js "sy") true None false false 24 [] false.

(** A state in normal mode with three records in a viewport of two rows,
    the first one selected. *)
Definition browsing_state : State :=
  mkState F_pid true [makeProc 1 5; makeProc 2 50; makeProc 3 20]
          0 0 [] false None false false 2 [] false.

(** The direction the sort-cycle key sets for a field. *)
Definition default_ascending (f : SortField) : bool :=
  match f with
  | F_pid | F_command => true
  | F_cpu | F_mem | F_status => false
  end.

(* ------------------------------------------------------------------ *)
(** * The pause of a restart *)

(** The handler of ["y"] in confirm mode does not run in one piece when
    the action is a restart: at [await Bun.sleep(500)] the other handlers
    run, and what the handler does afterwards reads the variable [confirm]
    anew.  [keypress] is the handler when nothing else runs in between. *)

(** How the first piece of the handler ends: the handler is through, or it
    waits in [Bun.sleep] with the variables as they were. *)
Inductive Segment : Type :=
| Through (st : State) (eff : list Effect) (o : Outcome)
| Paused (eff : list Effect).

(** From the start of the handler, with [c] the value of [confirm], to the
    pause: [Bun.spawn(["kill", sig, String(confirm.pid)])] and, for a
    restart when that did not throw, [await Bun.sleep(500)]. *)
Definition confirm_yes_begin {host : Host} (w : World) (st : State)
           (c : Confirm) : Segment :=
  let sig := match c_action c with A_kill => js "-9" | _ => js "-15" end in
  let kill := E_spawn [js "kill"; sig; String_of_number (c_pid c)] in
  if spawn_throws w then
    let '(st', o) := refresh w (clear_confirm st) in Through st' [kill] o
  else
    match c_action c with
    | A_restart => Paused [kill; E_sleep 500]
    | _ => let '(st', o) := refresh w (clear_confirm st) in Through st' [kill] o
    end.

(** After the pause, on the variables as they are by then:
    [Bun.spawn(["sh", "-c", confirm.cmd])], where reading [confirm.cmd] of
    null is a TypeError that [catch {}] swallows; then [confirm = null],
    the bar hidden and [await refresh()]. *)
Definition confirm_yes_resume {host : Host} (w : World) (st : State)
  : State * list Effect * Outcome :=
  let eff := match confirm st with
             | Some c => [E_spawn [js "sh"; js "-c"; c_cmd c]]
             | None => []
             end in
  let '(st', o) := refresh w (clear_confirm st) in (st', eff, o).

(** Two records shown, the first one selected, in normal mode. *)
Definition two_shown : State :=
  mkState F_pid true scenario_records 0 0 [] false None false false 24 []
          false.

(* ------------------------------------------------------------------ *)
(** * Facts on strings and classes *)

Lemma str_eqb_eq (a b : jsstring) : str_eqb a b = true <-> a = b.
Proof.
  revert b; induction a as [|x a IH]; intros [|y b]; simpl;
    try (split; [discriminate | intros H; inversion H]); try tauto.
  rewrite andb_true_iff, N.eqb_eq, IH.
  split; [intros [-> ->]; reflexivity | intros H; inversion H; auto].
Qed.

Lemma digit_not_space (c : char) : is_digit c = true -> is_space c = false.
Proof.
  unfold is_digit, is_space, is_line_terminator.
  rewrite andb_true_iff, !N.leb_le; intros [H1 H2].
  repeat (apply orb_false_iff; split);
    try (apply N.eqb_neq; lia).
  apply andb_false_iff; left; apply N.leb_gt; lia.
Qed.

Lemma word_not_space (c : char) : is_word c = true -> is_space c = false.
Proof.
  unfold is_word.
  rewrite !orb_true_iff, !andb_true_iff, !N.leb_le, N.eqb_eq.
  intros [[[[H1 H2]|[H1 H2]]|H]|H];
    try (apply digit_not_space; exact H);
    unfold is_space, is_line_terminator;
    repeat (apply orb_false_iff; split);
    try (apply N.eqb_neq; lia);
    apply andb_false_iff; left; apply N.leb_gt; lia.
Qed.

Lemma blank_free_spec (cs : charclass) (c : char) :
  blank_free cs = true -> in_class cs c = true -> is_space c = false.
Proof.
  destruct cs; simpl; try discriminate; intros Hb H.
  - now apply digit_not_space.
  - now apply negb_true_iff.
  - now apply word_not_space.
  - apply orb_true_iff in H as [H|H].
    + now apply digit_not_space.
    + apply N.eqb_eq in H; subst. now apply negb_true_iff.
Qed.

(* ------------------------------------------------------------------ *)
(** * The matcher against the grammar *)

Section GreedyFacts.
Context {R : Type}.
Variable cs : charclass.
Variable k : jsstring -> jsstring -> option R.

Lemma greedy_sound (s : jsstring) :
  forall acc r,
    greedy cs k acc s = Some r ->
    exists tok rest,
      s = tok ++ rest /\ forallb (in_class cs) tok = true
      /\ k (acc ++ tok) rest = Some r.
Proof.
  induction s as [|c s IH]; intros acc r H; simpl in H.
  - exists [], []. split; [reflexivity|]. split; [reflexivity|].
    now rewrite app_nil_r.
  - destruct (in_class cs c) eqn:Hc.
    + destruct (greedy cs k (acc ++ [c]) s) as [r'|] eqn:Hg.
      * inversion H; subst r'.
        destruct (IH _ _ Hg) as (tok & rest & -> & Htok & Hk).
        exists (c :: tok), rest. simpl. rewrite Hc, Htok.
        rewrite <- app_assoc in Hk. auto.
      * exists [], (c :: s). split; [reflexivity|]. split; [reflexivity|].
        now rewrite app_nil_r.
    + exists [], (c :: s). split; [reflexivity|]. split; [reflexivity|].
      now rewrite app_nil_r.
Qed.

Lemma greedy_maximal (tok : jsstring) :
  forall acc rest r,
    forallb (in_class cs) tok = true -> stops cs rest ->
    k (acc ++ tok) rest = Some r ->
    greedy cs k acc (tok ++ rest) = Some r.
Proof.
  induction tok as [|c tok IH]; intros acc rest r Htok Hstop Hk.
  - rewrite app_nil_r in Hk. simpl.
    destruct rest as [|c rest]; simpl; auto.
    simpl in Hstop. now rewrite Hstop.
  - simpl in Htok. apply andb_true_iff in Htok as [Hc Htok].
    simpl. rewrite Hc.
    rewrite (IH (acc ++ [c]) rest r); auto.
    now rewrite <- app_assoc.
Qed.

Lemma greedy_complete (tok : jsstring) :
  forall acc rest,
    forallb (in_class cs) tok = true ->
    k (acc ++ tok) rest <> None ->
    greedy cs k acc (tok ++ rest) <> None.
Proof.
  induction tok as [|c tok IH]; intros acc rest Htok Hk.
  - rewrite app_nil_r in Hk. simpl.
    destruct rest as [|c rest]; simpl; auto.
    destruct (in_class cs c); auto.
    destruct (greedy cs k (acc ++ [c]) rest); auto; discriminate.
  - simpl in Htok. apply andb_true_iff in Htok as [Hc Htok].
    simpl. rewrite Hc.
    specialize (IH (acc ++ [c]) rest Htok).
    rewrite <- app_assoc in IH. specialize (IH Hk).
    destruct (greedy cs k (acc ++ [c]) (tok ++ rest)); [discriminate|].
    now elim IH.
Qed.
End GreedyFacts.

Lemma repeat_class_sound {R : Type} (q : quantifier) (cs : charclass)
      (k : jsstring -> jsstring -> option R) (t : term) (s : jsstring) (r : R) :
  term_class t = cs -> term_quant t = q ->
  repeat_class q cs k s = Some r ->
  exists tok rest, s = tok ++ rest /\ fits t tok = true /\ k tok rest = Some r.
Proof.
  intros Hcs Hq H. unfold repeat_class in H.
  apply greedy_sound in H as (tok & rest & -> & Htok & Hk). simpl in Hk.
  exists tok, rest. unfold fits. rewrite Hcs, Hq, Htok.
  destruct q, tok; try discriminate; auto.
Qed.

Lemma repeat_class_maximal {R : Type} (q : quantifier) (cs : charclass)
      (k : jsstring -> jsstring -> option R) (t : term)
      (tok rest : jsstring) (r : R) :
  term_class t = cs -> term_quant t = q ->
  fits t tok = true -> stops cs rest -> k tok rest = Some r ->
  repeat_class q cs k (tok ++ rest) = Some r.
Proof.
  intros Hcs Hq Hfit Hstop Hk. unfold fits in Hfit.
  rewrite Hcs, Hq in Hfit. apply andb_true_iff in Hfit as [Htok Hne].
  unfold repeat_class. apply greedy_maximal; auto. simpl.
  destruct q, tok; try discriminate; auto.
Qed.

Lemma repeat_class_complete {R : Type} (q : quantifier) (cs : charclass)
      (k : jsstring -> jsstring -> option R) (t : term) (tok rest : jsstring) :
  term_class t = cs -> term_quant t = q ->
  fits t tok = true -> k tok rest <> None ->
  repeat_class q cs k (tok ++ rest) <> None.
Proof.
  intros Hcs Hq Hfit Hk. unfold fits in Hfit.
  rewrite Hcs, Hq in Hfit. apply andb_true_iff in Hfit as [Htok Hne].
  unfold repeat_class. apply greedy_complete; auto. simpl.
  destruct q, tok; try discriminate; auto.
Qed.

Lemma match_terms_sound (ts : regex) :
  forall caps s r,
    match_terms ts caps s = Some r ->
    exists toks,
      Forall2 (fun t tok => fits t tok = true) ts toks
      /\ s = List.concat toks /\ r = List.rev (captured ts toks) ++ caps.
Proof.
  induction ts as [|t ts IH]; intros caps s r H; simpl in H.
  - destruct s; [|discriminate]. inversion H; subst.
    exists []. repeat split; constructor.
  - destruct t as [q cs|q cs].
    + apply (repeat_class_sound q cs _ (Rep q cs)) in H
        as (tok & rest & -> & Hfit & Hk); auto.
      destruct (IH _ _ _ Hk) as (toks & HF & -> & ->).
      exists (tok :: toks). repeat split; auto.
    + apply (repeat_class_sound q cs _ (Capture q cs)) in H
        as (tok & rest & -> & Hfit & Hk); auto.
      destruct (IH _ _ _ Hk) as (toks & HF & -> & ->).
      exists (tok :: toks). repeat split; auto.
      simpl. now rewrite <- app_assoc.
Qed.

Lemma match_terms_complete (ts : regex) (toks : list jsstring) :
  Forall2 (fun t tok => fits t tok = true) ts toks ->
  forall caps, match_terms ts caps (List.concat toks) <> None.
Proof.
  induction 1 as [|t tok ts toks Hfit HF IH]; intros caps; simpl.
  - discriminate.
  - destruct t as [q cs|q cs];
      (eapply repeat_class_complete; [| | exact Hfit | apply IH]; reflexivity).
Qed.

Lemma match_terms_prefix (ts1 : regex) (toks1 : list jsstring) :
  Forall2 (fun t tok => fits t tok = true) ts1 toks1 ->
  forall ts2 tail caps r,
    maximal ts1 toks1 tail ->
    match_terms ts2 (List.rev (captured ts1 toks1) ++ caps) tail = Some r ->
    match_terms (ts1 ++ ts2) caps (List.concat toks1 ++ tail) = Some r.
Proof.
  induction 1 as [|t tok ts toks Hfit HF IH]; intros ts2 tail caps r Hmax Hk.
  - exact Hk.
  - destruct Hmax as [Hstop Hmax]. simpl List.concat. rewrite <- app_assoc.
    destruct t as [q cs|q cs]; simpl;
      (eapply repeat_class_maximal; [| | exact Hfit | exact Hstop |];
       [reflexivity | reflexivity |]);
      apply IH; auto.
    simpl in Hk. now rewrite <- app_assoc in Hk.
Qed.

Lemma match_terms_maximal (ts : regex) (toks : list jsstring) (caps : list jsstring) :
  Forall2 (fun t tok => fits t tok = true) ts toks ->
  maximal ts toks [] ->
  match_terms ts caps (List.concat toks)
  = Some (List.rev (captured ts toks) ++ caps).
Proof.
  intros HF Hmax.
  pose proof (match_terms_prefix ts toks HF [] [] caps
                (List.rev (captured ts toks) ++ caps) Hmax eq_refl) as H.
  now rewrite !app_nil_r in H.
Qed.

(* ------------------------------------------------------------------ *)
(** * [PS_REGEX] on a line given by its pieces *)

Lemma stops_next (cs : charclass) (t : term) (tok rest : jsstring) :
  fits t tok = true -> term_quant t = Plus ->
  (forall c, in_class (term_class t) c = true -> in_class cs c = false) ->
  stops cs (tok ++ rest).
Proof.
  unfold fits. intros Hfit Hq Hsep. rewrite Hq in Hfit.
  destruct tok as [|c tok]; simpl in *.
  - discriminate.
  - apply Hsep. apply andb_true_iff in Hfit as [Hfit _].
    now apply andb_true_iff in Hfit as [Hc _].
Qed.

Lemma blank_then_field (cs : charclass) (c : char) :
  blank_free cs = true -> in_class cs c = true -> in_class Space c = false.
Proof. exact (blank_free_spec cs c). Qed.

Lemma field_then_blank (cs : charclass) (c : char) :
  blank_free cs = true -> in_class Space c = true -> in_class cs c = false.
Proof.
  intros Hb Hs. destruct (in_class cs c) eqn:Hc; auto.
  simpl in Hs. now rewrite (blank_free_spec cs c Hb Hc) in Hs.
Qed.

Ltac split_fits H :=
  repeat match type of H with
         | Forall2 _ (_ :: _) (_ :: _) =>
             let Hf := fresh "Hfit" in
             apply Forall2_cons_iff in H; destruct H as [Hf H]
         end.

Ltac solve_stops :=
  simpl List.concat; simpl term_class; rewrite <- ?app_assoc; cbn [app];
  eapply stops_next;
  [ eassumption | reflexivity
  | intros ? ?;
    first [ eapply blank_then_field; [|eassumption]; reflexivity
          | eapply field_then_blank; [|eassumption]; reflexivity ] ].

Lemma ps_front_maximal (l : PsLine) :
  wf l ->
  maximal ps_front (firstn 22 (tokens l)) (sp11 l ++ commandS l).
Proof.
  intros H. unfold wf, PS_REGEX, tokens in H. split_fits H.
  unfold ps_front, PS_REGEX, tokens. simpl firstn. simpl maximal.
  repeat split; solve_stops.
Qed.

Lemma ps_back_matches (l : PsLine) (caps : list jsstring) :
  wf l ->
  exists c,
    match_terms ps_back caps (sp11 l ++ commandS l) = Some (c :: caps)
    /\ (command_starts l -> c = commandS l).
Proof.
  intros H. unfold wf, PS_REGEX, tokens in H. split_fits H.
  assert (HF : Forall2 (fun t tok => fits t tok = true) ps_back
                       [sp11 l; commandS l])
    by (repeat constructor; assumption).
  pose proof (match_terms_complete _ _ HF caps) as Hc.
  simpl List.concat in Hc. rewrite app_nil_r in Hc.
  destruct (match_terms ps_back caps (sp11 l ++ commandS l)) as [r|] eqn:Hm;
    [clear Hc | now elim Hc].
  destruct (match_terms_sound _ _ _ _ Hm) as (toks & HF' & _ & ->).
  unfold ps_back, PS_REGEX in HF'. simpl skipn in HF'.
  inversion HF' as [|? w ? toks1 _ HF1]; subst.
  inversion HF1 as [|? c ? toks2 _ HF2]; subst.
  inversion HF2; subst.
  exists c. split; [reflexivity|].
  intros Hstart.
  assert (Hmax : maximal ps_back [sp11 l; commandS l] []).
  { simpl. repeat split. simpl. rewrite app_nil_r.
    unfold command_starts in Hstart.
    destruct (commandS l); simpl; auto. }
  pose proof (match_terms_maximal _ _ caps HF Hmax) as Hm'.
  simpl List.concat in Hm'. rewrite app_nil_r in Hm'.
  rewrite Hm in Hm'. simpl in Hm'. now inversion Hm'.
Qed.

(** What [PS_REGEX.exec] returns on a conforming line: its six leading
    fields as they stand, and the command from its first character that
    is not a blank. *)
Lemma exec_render (l : PsLine) :
  wf l ->
  exists c,
    exec PS_REGEX (render l)
    = Some [render l; pidS l; ppidS l; cpuS l; memS l; statS l; ttyS l; c]
    /\ (command_starts l -> c = commandS l).
Proof.
  intros Hwf.
  destruct (ps_back_matches l
              (List.rev (captured ps_front (firstn 22 (tokens l))) ++ []) Hwf)
    as (c & Hback & Hc).
  exists c. split; [|exact Hc].
  assert (HF : Forall2 (fun t tok => fits t tok = true) ps_front
                       (firstn 22 (tokens l))).
  { unfold wf, PS_REGEX, tokens in Hwf. split_fits Hwf.
    unfold ps_front, PS_REGEX, tokens. simpl firstn.
    repeat constructor; assumption. }
  pose proof (match_terms_prefix _ _ HF ps_back _ [] _
                (ps_front_maximal l Hwf) Hback) as Hm.
  unfold exec.
  replace (render l)
    with (List.concat (firstn 22 (tokens l)) ++ sp11 l ++ commandS l) at 1.
  - change (ps_front ++ ps_back) with PS_REGEX in Hm. rewrite Hm.
    reflexivity.
  - unfold render, tokens. simpl. now rewrite ?app_nil_r, <- ?app_assoc.
Qed.

(** The matcher accepts exactly the lines of the grammar. *)
Lemma exec_conforms (re : regex) (line : jsstring) :
  exec re line <> None <-> conforms re line.
Proof.
  unfold exec, conforms. split.
  - destruct (match_terms re [] line) as [r|] eqn:Hm; [intros _|now intros []].
    destruct (match_terms_sound _ _ _ _ Hm) as (toks & HF & -> & _).
    now exists toks.
  - intros (toks & HF & ->).
    pose proof (match_terms_complete _ _ HF []) as Hc.
    destruct (match_terms re [] (List.concat toks)); [discriminate|now elim Hc].
Qed.

Lemma conforms_pieces (line : jsstring) :
  conforms PS_REGEX line <-> exists l, wf l /\ line = render l.
Proof.
  split.
  - intros (toks & HF & ->). unfold PS_REGEX in HF.
    repeat match goal with
           | H : Forall2 _ (_ :: _) ?x |- _ =>
               let tok := fresh "tok" in
               let toks' := fresh "toks" in
               let Hf := fresh "Hf" in
               inversion H as [|? tok ? toks' Hf ?]; subst; clear H
           end.
    match goal with H : Forall2 _ [] _ |- _ => inversion H; subst; clear H end.
    eexists (mkPsLine _ _ _ _ _ _ _ _ _ _ _ _ _ _ _ _ _ _ _ _ _ _ _ _).
    split; [|reflexivity].
    unfold wf, PS_REGEX, tokens; simpl.
    repeat constructor; assumption.
  - intros (l & Hwf & ->). now exists (tokens l).
Qed.

Lemma render_not_empty (l : PsLine) :
  wf l -> Nat.eqb (List.length (render l)) 0 = false.
Proof.
  intros H. unfold wf, PS_REGEX, tokens in H. split_fits H.
  unfold render, tokens. simpl List.concat. rewrite !length_app.
  unfold fits in Hfit0. simpl in Hfit0.
  destruct (pidS l); [now rewrite andb_false_r in Hfit0|].
  simpl. apply Nat.eqb_neq. lia.
Qed.

(** The test of the daemon filter against the policy. *)
Lemma policy_spec (status terminal : jsstring) :
  negb (str_eqb terminal (js "??"))
  && negb (code_is (charCodeAt status 0) 83)
  && negb (code_is (charCodeAt status 0) 115)
  && negb (code_is (charCodeAt status 0) 73) = false
  <-> kept status terminal.
Proof.
  unfold kept. rewrite !andb_false_iff, !negb_false_iff, str_eqb_eq.
  unfold charCodeAt, code_is.
  destruct status as [|c rest]; simpl.
  - split.
    + intros [[[H|H]|H]|H]; try discriminate. now left.
    + intros [H|(c & rest & H & _)]; [tauto|discriminate].
  - rewrite !N.eqb_eq. split.
    + intros [[[H|H]|H]|H]; [now left| | |];
        right; exists c, rest; tauto.
    + intros [H|(c' & rest' & H & Hc)]; [tauto|].
      inversion H; subst. tauto.
Qed.

Lemma parse_render (l : PsLine) :
  wf l ->
  exists c,
    (command_starts l -> c = commandS l)
    /\ (kept (statS l) (ttyS l) ->
        parseProcessLine (render l)
        = Some {| pid := ToNumber (pidS l); ppid := ToNumber (ppidS l);
                  cpu := ToNumber (cpuS l); mem := ToNumber (memS l);
                  stat := statS l; tty := ttyS l; command := c |})
    /\ (~ kept (statS l) (ttyS l) -> parseProcessLine (render l) = None).
Proof.
  intros Hwf. destruct (exec_render l Hwf) as (c & Hex & Hc).
  exists c. split; [exact Hc|].
  unfold parseProcessLine. rewrite (render_not_empty l Hwf), Hex.
  unfold group. cbn [nth].
  pose proof (policy_spec (statS l) (ttyS l)) as Hp.
  destruct (negb (str_eqb (ttyS l) (js "??"))
            && negb (code_is (charCodeAt (statS l) 0) 83)
            && negb (code_is (charCodeAt (statS l) 0) 115)
            && negb (code_is (charCodeAt (statS l) 0) 73)).
  - split; [intros Hk | reflexivity].
    apply Hp in Hk. discriminate.
  - split; [reflexivity | intros Hk]. elim Hk. now apply Hp.
Qed.

(* ------------------------------------------------------------------ *)
(** * Numerals *)

Lemma Qred_inject_Z (z : Z) : Qred (inject_Z z) = inject_Z z.
Proof.
  unfold Qred, inject_Z.
  pose proof (Z.ggcd_gcd z 1) as Hg.
  pose proof (Z.ggcd_correct_divisors z 1) as Hd.
  destruct (Z.ggcd z 1) as [g [aa bb]]. simpl in *.
  rewrite Z.gcd_1_r in Hg. subst g. destruct Hd as [Ha Hb].
  rewrite Z.mul_1_l in Ha, Hb. now subst.
Qed.

Lemma split_dot_digits (ds : jsstring) :
  forallb is_digit ds = true -> split_dot ds = (ds, None).
Proof.
  induction ds as [|c ds IH]; simpl; [reflexivity|].
  rewrite andb_true_iff. intros [Hc Hds]. rewrite (IH Hds).
  destruct (N.eqb_spec c 46) as [->|_]; [discriminate|reflexivity].
Qed.

(** On a run of digits unary plus gives the integer they denote. *)
Lemma ToNumber_digits (ds : jsstring) :
  forallb is_digit ds = true -> ds <> [] ->
  ToNumber ds = num_of_Z (digits_val ds).
Proof.
  intros Hd Hne. unfold ToNumber. rewrite (split_dot_digits ds Hd).
  rewrite Hd, app_nil_r. simpl.
  destruct ds as [|c ds]; [contradiction|]. simpl.
  unfold num_of_Z. f_equal. exact (Qred_inject_Z (digits_val (c :: ds))).
Qed.

Lemma digits_val_nonneg (ds : jsstring) : (0 <= digits_val ds)%Z.
Proof.
  unfold digits_val.
  assert (H : forall acc, (0 <= acc)%Z ->
                (0 <= fold_left (fun a c => 10 * a + digit_val c) ds acc)%Z).
  { induction ds as [|c ds IH]; intros acc Hacc; cbn [fold_left];
      [exact Hacc|].
    apply IH. unfold digit_val.
    pose proof (N2Z.is_nonneg (c - 48)). lia. }
  apply H. lia.
Qed.

Lemma digits_val_snoc (ds : jsstring) (c : char) :
  digits_val (ds ++ [c]) = (10 * digits_val ds + digit_val c)%Z.
Proof. unfold digits_val. now rewrite fold_left_app. Qed.

Lemma digit_val_spec (c : char) :
  is_digit c = true ->
  (0 <= digit_val c <= 9)%Z /\ (Z.to_N (digit_val c) + 48)%N = c
  /\ (c <> 48%N -> (1 <= digit_val c)%Z).
Proof.
  unfold is_digit, digit_val. intros H.
  apply andb_true_iff in H as [H1 H2].
  apply N.leb_le in H1, H2. rewrite N2Z.id. lia.
Qed.

(** A numeral without a leading zero is at least the power of ten of its
    length. *)
Lemma digits_val_lower (ds : jsstring) :
  forallb is_digit ds = true -> ds <> [] -> hd 0%N ds <> 48%N ->
  (10 ^ (Z.of_nat (List.length ds) - 1) <= digits_val ds)%Z.
Proof.
  induction ds as [|c ds IH] using rev_ind; [congruence|].
  intros Hd _ Hh. rewrite forallb_app in Hd.
  apply andb_true_iff in Hd as [Hd Hc]. simpl in Hc.
  rewrite andb_true_r in Hc.
  destruct (digit_val_spec c Hc) as (Hr & _ & Hpos).
  rewrite digits_val_snoc, length_app. simpl List.length.
  destruct ds as [|d ds].
  - simpl in *. specialize (Hpos Hh). unfold digits_val. simpl. lia.
  - assert (Hne : d :: ds <> []) by discriminate.
    specialize (IH Hd Hne Hh).
    replace (Z.of_nat (List.length (d :: ds) + 1) - 1)%Z
      with (Z.succ (Z.of_nat (List.length (d :: ds)) - 1))%Z by lia.
    rewrite Z.pow_succ_r by (simpl List.length; lia). lia.
Qed.

(** With enough fuel [digits_of_pos] writes a numeral back. *)
Lemma digits_of_pos_numeral (ds : jsstring) :
  forallb is_digit ds = true -> ds <> [] -> hd 0%N ds <> 48%N ->
  forall (fuel : nat) (acc : jsstring),
    (List.length ds <= fuel)%nat ->
    digits_of_pos fuel (digits_val ds) acc = ds ++ acc.
Proof.
  induction ds as [|c ds IH] using rev_ind; [congruence|].
  intros Hd _ Hh fuel acc Hf. rewrite forallb_app in Hd.
  apply andb_true_iff in Hd as [Hd Hc]. simpl in Hc.
  rewrite andb_true_r in Hc.
  destruct (digit_val_spec c Hc) as (Hr & Hback & Hpos).
  rewrite length_app in Hf. simpl List.length in Hf.
  destruct fuel as [|fuel]; [lia|].
  rewrite digits_val_snoc. cbn [digits_of_pos].
  replace ((10 * digits_val ds + digit_val c) mod 10)%Z with (digit_val c)
    by (symmetry; rewrite Z.add_comm, Z.mul_comm, Z.mod_add by lia;
        apply Z.mod_small; lia).
  replace ((10 * digits_val ds + digit_val c) / 10)%Z with (digits_val ds)
    by (symmetry; rewrite Z.add_comm, Z.mul_comm, Z.div_add by lia;
        rewrite Z.div_small by lia; lia).
  rewrite Hback, <- app_assoc. cbn [app].
  destruct ds as [|d ds].
  - reflexivity.
  - assert (Hne : d :: ds <> []) by discriminate.
    pose proof (digits_val_lower (d :: ds) Hd Hne Hh) as Hlow.
    assert (0 < 10 ^ (Z.of_nat (List.length (d :: ds)) - 1))%Z
      by (apply Z.pow_pos_nonneg; simpl List.length; lia).
    destruct (Z.eqb_spec (digits_val (d :: ds)) 0); [lia|].
    apply IH; auto. lia.
Qed.

(** [String] of a natural number is its decimal numeral. *)
Lemma String_of_number_numeral (n : Z) (ds : jsstring) :
  decimal_numeral n ds -> String_of_number (num_of_Z n) = ds.
Proof.
  intros (Hne & Hd & Hv & Hz).
  assert (Hn : (0 <= n)%Z) by (subst n; now apply digits_val_nonneg).
  unfold String_of_number, num_of_Z, inject_Z. cbn [Qnum Qden].
  rewrite Z.abs_eq, Z.mod_1_r, Z.div_1_r by lia.
  destruct (Z.ltb_spec n 0) as [|_]; [lia|].
  cbn [frac_digits Z.eqb app]. rewrite app_nil_r.
  destruct (N.eq_dec (hd 0%N ds) 48%N) as [H0|H0].
  - rewrite (Hz H0) in *. subst n. reflexivity.
  - unfold digits_of_Z. subst n.
    rewrite (digits_of_pos_numeral ds Hd Hne H0);
      [apply app_nil_r|].
    pose proof (digits_val_lower ds Hd Hne H0) as Hlow.
    assert (Hlen : (1 <= Z.of_nat (List.length ds))%Z)
      by (destruct ds; [congruence | simpl List.length; lia]).
    assert (Hpow : (2 ^ (Z.of_nat (List.length ds) - 1)
                    <= 10 ^ (Z.of_nat (List.length ds) - 1))%Z)
      by (apply Z.pow_le_mono_l; lia).
    assert (Hlog : (Z.of_nat (List.length ds) - 1 <= Z.log2 (digits_val ds))%Z).
    { rewrite <- (Z.log2_pow2 (Z.of_nat (List.length ds) - 1)) by lia.
      apply Z.log2_le_mono. lia. }
    lia.
Qed.

(** [statLabel] computes the label of the glossary. *)
Lemma statLabel_glossary (s lbl : jsstring) :
  glossary_label s lbl -> statLabel s = lbl.
Proof.
  destruct s as [|c rest]; simpl; [intros ->; reflexivity|].
  intros [H|[H ->]].
  - simpl in H.
    repeat (destruct H as [H|H]; [inversion H; subst; reflexivity|]).
    contradiction.
  - unfold statLabel, charCodeAt, code_is. simpl.
    repeat match goal with
           | |- context [N.eqb c ?n] =>
               destruct (N.eqb_spec c n) as [->|_];
               [exfalso; eapply H; simpl; eauto 10|]
           end.
    reflexivity.
Qed.

(* ------------------------------------------------------------------ *)
(** * Line parser *)

(** C1, as amended.  A line made of the pieces of the grammar (pid, parent
    pid, cpu, mem, status, terminal, the five tokens of the start time, the
    command, blanks between them) whose command starts with a character
    that is not a blank, and that the background policy keeps, is parsed
    into the record of exactly these fields, the four numbers read off
    their numerals.  The empty line and every line outside the grammar
    give null. *)
Theorem parseProcessLine_roundtrip :
  (forall l : PsLine,
      wf l -> command_starts l -> kept (statS l) (ttyS l) ->
      parseProcessLine (render l) = Some (record_of l)
      /\ pid (record_of l) = num_of_Z (digits_val (pidS l))
      /\ ppid (record_of l) = num_of_Z (digits_val (ppidS l))
      /\ cpu (record_of l) = ToNumber (cpuS l)
      /\ mem (record_of l) = ToNumber (memS l)
      /\ stat (record_of l) = statS l
      /\ tty (record_of l) = ttyS l
      /\ command (record_of l) = commandS l)
  /\ parseProcessLine [] = None
  /\ (forall line, ~ conforms PS_REGEX line -> parseProcessLine line = None).
Proof.
  split; [|split].
  - intros l Hwf Hstart Hkept.
    destruct (parse_render l Hwf) as (c & Hc & Hsome & _).
    rewrite (Hsome Hkept), (Hc Hstart).
    split; [reflexivity|].
    unfold wf, PS_REGEX, tokens in Hwf. split_fits Hwf.
    unfold fits in Hfit0, Hfit2. simpl in Hfit0, Hfit2.
    apply andb_true_iff in Hfit0 as [Hp Hp'].
    apply andb_true_iff in Hfit2 as [Hq Hq'].
    simpl. repeat split.
    + apply ToNumber_digits; [exact Hp|]. now destruct (pidS l).
    + apply ToNumber_digits; [exact Hq|]. now destruct (ppidS l).
  - reflexivity.
  - intros line Hn. unfold parseProcessLine.
    destruct (Nat.eqb (List.length line) 0); [reflexivity|].
    destruct (exec PS_REGEX line) eqn:He; [|reflexivity].
    elim Hn. apply exec_conforms. now rewrite He.
Qed.

Lemma parseProcessLine_roundtrip_witness :
  wf syslogd_line /\ command_starts syslogd_line
  /\ kept (statS syslogd_line) (ttyS syslogd_line)
  /\ parseProcessLine
       (js "  123     1   2.3  0.5 Ss   ??  Thu Feb 20 14:30:00 2026 /usr/sbin/syslogd")
     = Some (mkProcess (Fin (123 # 1)) (Fin (1 # 1)) (Fin (23 # 10))
                       (Fin (1 # 2)) (js "Ss") (js "??")
                       (js "/usr/sbin/syslogd")).
Proof.
  assert (Hwf : wf syslogd_line)
    by (unfold wf, PS_REGEX, syslogd_line, tokens; simpl;
        repeat constructor).
  assert (Hs : command_starts syslogd_line) by reflexivity.
  assert (Hk : kept (statS syslogd_line) (ttyS syslogd_line))
    by (left; reflexivity).
  split; [exact Hwf|]. split; [exact Hs|]. split; [exact Hk|].
  exact (proj1 (proj1 parseProcessLine_roundtrip syslogd_line Hwf Hs Hk)).
Defined.

(** C1 as stated fails: a line of the grammar that the background policy
    drops gives null, not a record.  (And the grammar is that of
    [PS_REGEX]: without the tokens of the start time between terminal and
    command a line gives null too.) *)
Lemma parseProcessLine_conforming_dropped :
  conforms PS_REGEX vim_line /\ parseProcessLine vim_line = None
  /\ parseProcessLine (js "  123     1   2.3  0.5 Ss   ??  /usr/sbin/syslogd")
     = None.
Proof.
  split; [|split].
  - apply exec_conforms. vm_compute. discriminate.
  - vm_compute. reflexivity.
  - vm_compute. reflexivity.
Qed.

(** C2.  For a line of the grammar the parser returns a record exactly
    when the terminal is "??" or the status starts with S, s or I; it
    returns null for every other line of the grammar. *)
Theorem parseProcessLine_background_policy (l : PsLine) :
  wf l ->
  ((exists p, parseProcessLine (render l) = Some p /\ stat p = statS l
              /\ tty p = ttyS l)
   <-> kept (statS l) (ttyS l))
  /\ (~ kept (statS l) (ttyS l) -> parseProcessLine (render l) = None)
  /\ (ttyS l = js "??" -> parseProcessLine (render l) <> None).
Proof.
  intros Hwf. destruct (parse_render l Hwf) as (c & _ & Hsome & Hnone).
  split; [split|split].
  - intros (p & Hp & _) . destruct (policy_spec (statS l) (ttyS l)) as [H1 H2].
    apply H1.
    destruct (negb (str_eqb (ttyS l) (js "??"))
              && negb (code_is (charCodeAt (statS l) 0) 83)
              && negb (code_is (charCodeAt (statS l) 0) 115)
              && negb (code_is (charCodeAt (statS l) 0) 73)) eqn:Hb;
      [|reflexivity].
    assert (Hk : ~ kept (statS l) (ttyS l)) by (intros Hk; apply H2 in Hk; discriminate).
    rewrite (Hnone Hk) in Hp. discriminate.
  - intros Hk. eexists. split; [exact (Hsome Hk)|]. split; reflexivity.
  - exact Hnone.
  - intros Htty. assert (Hk : kept (statS l) (ttyS l)) by now left.
    rewrite (Hsome Hk). discriminate.
Qed.

Lemma parseProcessLine_background_policy_witness :
  wf syslogd_line
  /\ ((exists p, parseProcessLine (render syslogd_line) = Some p
                 /\ stat p = js "Ss" /\ tty p = js "??")
      <-> kept (js "Ss") (js "??")).
Proof.
  assert (Hwf : wf syslogd_line)
    by (unfold wf, PS_REGEX, syslogd_line, tokens; simpl;
        repeat constructor).
  split; [exact Hwf|].
  exact (proj1 (parseProcessLine_background_policy syslogd_line Hwf)).
Defined.

(** The remaining cases of the tests of [parseProcessLine]. *)
Example parse_command_with_spaces :
  option_map command
    (parseProcessLine
       (js "  200     1   0.0  0.1 Ss   ??  Thu Feb 20 14:30:00 2026 /usr/bin/some command with spaces"))
  = Some (js "/usr/bin/some command with spaces").
Proof. reflexivity. Qed.

Example parse_header :
  parseProcessLine
    (js "  PID  PPID  %CPU %MEM STAT TT       LSTART                    COMMAND")
  = None.
Proof. reflexivity. Qed.

Example parse_running_without_terminal :
  option_map pid
    (parseProcessLine
       (js "  300     1   1.0  0.2 R+   ??  Thu Feb 20 14:30:00 2026 /usr/bin/daemon"))
  = Some (Fin 300).
Proof. reflexivity. Qed.

Example parse_sleeping_on_terminal :
  option_map pid
    (parseProcessLine
       (js "  400     1   0.0  0.1 S    ttys000  Thu Feb 20 14:30:00 2026 /bin/zsh"))
  = Some (Fin 400).
Proof. reflexivity. Qed.

(** A numeral with two full stops matches [[\d.]+] and reads as NaN. *)
Example parse_two_full_stops :
  option_map cpu
    (parseProcessLine
       (js "  300     1   1.2.3  0.2 Ss   ??  Thu Feb 20 14:30:00 2026 /usr/bin/daemon"))
  = Some NaN.
Proof. reflexivity. Qed.

(* ------------------------------------------------------------------ *)
(** * A host for the ASCII range *)

Lemma code_unit_compare_sgn (a b : jsstring) :
  Z.sgn (code_unit_compare b a) = (- Z.sgn (code_unit_compare a b))%Z.
Proof.
  revert b; induction a as [|x a IH]; intros [|y b]; simpl; try reflexivity.
  rewrite (N.compare_antisym x y).
  destruct (N.compare x y); simpl; auto.
Qed.

Lemma code_unit_compare_trans (a b c : jsstring) :
  (code_unit_compare a b <= 0)%Z -> (code_unit_compare b c <= 0)%Z ->
  (code_unit_compare a c <= 0)%Z.
Proof.
  revert b c; induction a as [|x a IH]; intros [|y b] [|z c]; simpl;
    try lia.
  destruct (N.compare_spec x y), (N.compare_spec y z),
    (N.compare_spec x z); subst; try lia; eauto.
Qed.

#[export] Instance asciiHostLaws : HostLaws asciiHost :=
  {| localeCompare_sgn := fun a b => code_unit_compare_sgn a b;
     localeCompare_trans := code_unit_compare_trans |}.

(* ------------------------------------------------------------------ *)
(** * Status label *)

(** C10, as amended.  The label depends on the first character of the
    status only: R, S, D, T, Z, I give their label of the glossary, every
    other first character (and the empty status) gives the status back
    unchanged.  That holds for a lowercase s, which the background policy
    accepts, and for a lowercase i, which it does not accept: on a real
    terminal a status starting with i is dropped. *)
Theorem statLabel_first_char :
  (forall c rest lbl, In (c, lbl) status_labels -> statLabel (c :: rest) = lbl)
  /\ (forall c rest,
         (forall lbl, ~ In (c, lbl) status_labels) ->
         statLabel (c :: rest) = c :: rest)
  /\ statLabel [] = []
  /\ (forall rest terminal,
         statLabel (115%N :: rest) = 115%N :: rest
         /\ kept (115%N :: rest) terminal)
  /\ (forall rest terminal,
         statLabel (105%N :: rest) = 105%N :: rest
         /\ (terminal <> js "??" -> ~ kept (105%N :: rest) terminal)).
Proof.
  split; [|split; [|split; [|split]]].
  - intros c rest lbl H. simpl in H.
    repeat (destruct H as [H|H]; [inversion H; subst; reflexivity|]).
    contradiction.
  - intros c rest H. unfold statLabel, charCodeAt, code_is. simpl.
    repeat match goal with
           | |- context [N.eqb c ?n] =>
               destruct (N.eqb_spec c n) as [->|_];
               [exfalso; eapply H; simpl; eauto 10|]
           end.
    reflexivity.
  - reflexivity.
  - intros rest terminal. split; [reflexivity|].
    right. exists 115%N, rest. auto.
  - intros rest terminal. split; [reflexivity|].
    intros Hn [H|(c & r & H & Hc)]; [contradiction|].
    inversion H; subst. lia.
Qed.

Lemma statLabel_first_char_witness :
  In (82%N, js "Running") status_labels
  /\ statLabel (js "R+") = js "Running".
Proof.
  assert (H : In (82%N, js "Running") status_labels) by (left; reflexivity).
  split; [exact H|].
  exact (proj1 statLabel_first_char 82%N (js "+") (js "Running") H).
Defined.

(** C10 as stated fails where it says the background policy accepts a
    lowercase i: a line of the grammar with status "i" on a terminal is
    dropped, although its label is the raw status.  The I that the policy
    does accept is the uppercase one, whose label is "Idle". *)
Lemma lowercase_i_not_accepted :
  statLabel (js "i") = js "i"
  /\ conforms PS_REGEX idle_lower_line
  /\ parseProcessLine idle_lower_line = None
  /\ statLabel (js "I") = js "Idle".
Proof.
  split; [reflexivity|]. split; [|split; [|reflexivity]].
  - apply exec_conforms. vm_compute. discriminate.
  - vm_compute. reflexivity.
Qed.

(* ------------------------------------------------------------------ *)
(** * Filter step *)

Lemma startsWith_spec (f s : jsstring) :
  startsWith f s = true <-> exists b, s = f ++ b.
Proof.
  revert s; induction f as [|x f IH]; intros s; simpl.
  - split; eauto.
  - destruct s as [|y s].
    + split; [discriminate | intros [b H]; discriminate].
    + rewrite andb_true_iff, N.eqb_eq, IH. split.
      * intros [-> [b ->]]. now exists b.
      * intros [b H]. inversion H; subst. eauto.
Qed.

Lemma includes_spec (s f : jsstring) :
  includes s f = true <-> occurs f s.
Proof.
  unfold occurs. induction s as [|c s IH]; simpl.
  - rewrite orb_false_r, startsWith_spec. split.
    + intros [b H]. now exists [], b.
    + intros (a & b & H). destruct a; [now exists b|discriminate].
  - rewrite orb_true_iff, startsWith_spec, IH. split.
    + intros [[b H]|(a & b & H)].
      * now exists [], b.
      * exists (c :: a), b. now rewrite H.
    + intros (a & b & H). destruct a as [|c' a].
      * left. now exists b.
      * right. inversion H; subst. now exists a, b.
Qed.

Lemma filter_idempotent {A : Type} (f : A -> bool) (l : list A) :
  List.filter f (List.filter f l) = List.filter f l.
Proof.
  induction l as [|x l IH]; simpl; [reflexivity|].
  destruct (f x) eqn:Hx; simpl; [rewrite Hx, IH|]; auto.
Qed.

Section FilterFacts.
Context {host : Host}.

(** C4.  With the empty query the filter step returns the records as they
    are, in their order; for every query, filtering a filtered list again
    with the same query changes nothing. *)
Theorem applyFilter_identity_idempotent :
  (forall records, applyFilter [] records = records)
  /\ (forall q records,
         applyFilter q (applyFilter q records) = applyFilter q records).
Proof.
  split; [reflexivity|].
  intros [|c q] records; [reflexivity|].
  unfold applyFilter. apply filter_idempotent.
Qed.

(** C5.  For a query that is not empty, a record passes the filter step
    exactly when the lowered query occurs in the lowered command line, or
    in the decimal numeral of the pid, or in the lowered label that the
    glossary gives for the status (the label listed for the first
    character of the status, not the status code itself). *)
Theorem applyFilter_matches (q : jsstring) (records : list Process)
        (p : Process) (n : Z) (ds lbl : jsstring) :
  q <> [] ->
  pid p = num_of_Z n -> decimal_numeral n ds ->
  glossary_label (stat p) lbl ->
  (In p (applyFilter q records)
   <-> In p records
       /\ (occurs (toLowerCase q) (toLowerCase (command p))
           \/ occurs (toLowerCase q) ds
           \/ occurs (toLowerCase q) (toLowerCase lbl))).
Proof.
  intros Hq Hp Hds Hl. destruct q as [|c q]; [contradiction|].
  unfold applyFilter. rewrite filter_In. unfold matchesFilter.
  rewrite Hp, (String_of_number_numeral n ds Hds),
    (statLabel_glossary (stat p) lbl Hl).
  rewrite !orb_true_iff, !includes_spec. tauto.
Qed.
End FilterFacts.

Lemma applyFilter_matches_witness :
  js "sleep" <> []
  /\ decimal_numeral 1 (js "1")
  /\ glossary_label (js "Ss") (js "Sleeping")
  /\ pid (mkProcess (Fin 1) (Fin 0) (Fin 0) (Fin 0) (js "Ss") (js "??")
                    (js "/usr/sbin/syslogd")) = num_of_Z 1
  /\ In (mkProcess (Fin 1) (Fin 0) (Fin 0) (Fin 0) (js "Ss") (js "??")
                   (js "/usr/sbin/syslogd"))
        (applyFilter (js "sleep") scenario_records).
Proof.
  assert (H : js "sleep" <> []) by discriminate.
  assert (Hd : decimal_numeral 1 (js "1")).
  { split; [discriminate|]. split; [reflexivity|]. split; [reflexivity|].
    intros H0. vm_compute in H0. discriminate. }
  assert (Hl : glossary_label (js "Ss") (js "Sleeping"))
    by (left; right; left; reflexivity).
  split; [exact H|]. split; [exact Hd|]. split; [exact Hl|].
  split; [reflexivity|].
  apply (proj2 (@applyFilter_matches asciiHost (js "sleep") scenario_records
                  (mkProcess (Fin 1) (Fin 0) (Fin 0) (Fin 0) (js "Ss")
                             (js "??") (js "/usr/sbin/syslogd"))
                  1%Z (js "1") (js "Sleeping") H eq_refl Hd Hl)).
  split; [left; reflexivity|].
  right. right. exists [], (js "ing"). reflexivity.
Defined.

(** The status code itself is not matched: "ss" occurs in the code "Ss"
    of both records and in no label, command or pid. *)
Example filter_raw_code :
  applyFilter (js "ss") scenario_records = []
  /\ List.map command (applyFilter (js "sleep") scenario_records)
     = [js "/usr/sbin/syslogd"; js "/bin/zsh"].
Proof. split; reflexivity. Qed.

Example filter_scenario :
  List.map command (applyFilter (js "sys") scenario_records)
  = [js "/usr/sbin/syslogd"].
Proof. reflexivity. Qed.

(* ------------------------------------------------------------------ *)
(** * Sort engine *)

Section SortFacts.
Context {A : Type}.
Variables up down : A -> A -> number.

(** [down] is [up] with the sign flipped, and [up] is a consistent
    comparator. *)
Hypothesis down_up :
  forall a b, SortCompare down a b = CompOpp (SortCompare up a b).
Hypothesis up_antisym :
  forall a b, SortCompare up b a = CompOpp (SortCompare up a b).
Hypothesis up_trans :
  forall a b c,
    SortCompare up a b = Lt -> SortCompare up b c = Lt ->
    SortCompare up a c = Lt.


Lemma sort_insert_In (cmp : A -> A -> number) (x y : A) (l : list A) :
  In y (sort_insert cmp x l) <-> y = x \/ In y l.
Proof.
  induction l as [|z l IH]; simpl.
  - intuition.
  - destruct (SortCompare cmp x z); simpl; rewrite ?IH; intuition.
Qed.

Lemma array_sort_In (cmp : A -> A -> number) (y : A) (l : list A) :
  In y (array_sort cmp l) <-> In y l.
Proof.
  induction l as [|x l IH]; simpl; [tauto|].
  rewrite sort_insert_In, IH. intuition.
Qed.

Lemma sort_insert_sorted (x : A) (l : list A) :
  StronglySorted (precedes up) l ->
  Forall (fun y => SortCompare up x y <> Eq) l ->
  StronglySorted (precedes up) (sort_insert up x l).
Proof.
  induction 1 as [|z l Hs IH Hz]; intros Hx; simpl.
  - repeat constructor.
  - inversion Hx as [|? ? Hxz Hxl]; subst.
    destruct (SortCompare up x z) eqn:Hc.
    + contradiction.
    + constructor; [now constructor|].
      constructor; [exact Hc|].
      eapply Forall_impl; [|exact Hz].
      intros w Hw. exact (up_trans _ _ _ Hc Hw).
    + constructor; [now apply IH|].
      apply Forall_forall. intros w Hw.
      apply sort_insert_In in Hw as [->|Hw].
      * unfold precedes. rewrite up_antisym, Hc. reflexivity.
      * rewrite Forall_forall in Hz. now apply Hz.
Qed.

Lemma tie_free_In (x y : A) (l : list A) :
  Forall (fun z => SortCompare up x z <> Eq) l ->
  In y (array_sort up l) -> SortCompare up x y <> Eq.
Proof.
  intros HF Hin. apply array_sort_In in Hin.
  rewrite Forall_forall in HF. now apply HF.
Qed.

Lemma array_sort_sorted (l : list A) :
  tie_free up l -> StronglySorted (precedes up) (array_sort up l).
Proof.
  induction l as [|x l IH]; simpl; intros Ht.
  - constructor.
  - destruct Ht as [Hx Ht]. apply sort_insert_sorted; [now apply IH|].
    apply Forall_forall. intros y Hy. eapply tie_free_In; eauto.
Qed.

Lemma sort_insert_last (cmp : A -> A -> number) (x : A) (l : list A) :
  Forall (fun y => SortCompare cmp x y = Gt) l ->
  sort_insert cmp x l = l ++ [x].
Proof.
  induction 1 as [|y l Hy _ IH]; simpl; [reflexivity|].
  now rewrite Hy, IH.
Qed.

Lemma sort_down_of_sorted (l : list A) :
  StronglySorted (precedes up) l -> array_sort down l = List.rev l.
Proof.
  induction 1 as [|x l Hs IH Hx]; simpl; [reflexivity|].
  rewrite IH. apply sort_insert_last.
  apply Forall_rev. eapply Forall_impl; [|exact Hx].
  intros y Hy. unfold precedes in Hy. now rewrite down_up, Hy.
Qed.

Lemma sort_up_then_down (l : list A) :
  tie_free up l ->
  array_sort down (array_sort up l) = List.rev (array_sort up l).
Proof.
  intros Ht. apply sort_down_of_sorted. now apply array_sort_sorted.
Qed.
End SortFacts.

Lemma Qcompare_opp_0 (q : Q) :
  Qcompare (Qopp q) 0 = CompOpp (Qcompare q 0).
Proof.
  unfold Qcompare, Qopp. simpl. rewrite !Z.mul_1_r.
  destruct (Qnum q); reflexivity.
Qed.

Lemma Qcompare_sub_0 (x y : Q) :
  Qcompare (Qred (x - y)) 0 = Qcompare x y.
Proof.
  rewrite (Qcompare_comp _ _ (Qred_correct (x - y)) 0%Q 0%Q (Qeq_refl 0)).
  destruct (Qcompare_spec x y) as [H|H|H].
  - apply Qeq_alt. rewrite H. unfold Qminus. apply Qplus_opp_r.
  - apply Qlt_alt. apply Qlt_minus_iff in H.
    apply Qlt_minus_iff. unfold Qminus.
    rewrite Qplus_0_l, Qopp_plus, Qopp_opp, Qplus_comm. exact H.
  - apply Qgt_alt. apply Qlt_minus_iff in H. unfold Qminus. exact H.
Qed.

Lemma SortCompare_num_sub {A : Type} (key : A -> number) (a b : A) :
  SortCompare (fun a b => num_sub (key a) (key b)) a b
  = match key a, key b with
    | Fin x, Fin y => Qcompare x y
    | _, _ => Eq
    end.
Proof.
  unfold SortCompare, num_sub.
  destruct (key a), (key b); try reflexivity. apply Qcompare_sub_0.
Qed.

Lemma SortCompare_num_of_Z {A : Type} (f : A -> A -> Z) (a b : A) :
  SortCompare (fun a b => num_of_Z (f a b)) a b = Z.compare (f a b) 0.
Proof.
  unfold SortCompare, num_of_Z, Qcompare. simpl. now rewrite Z.mul_1_r.
Qed.

Section SortProcsFacts.
Context {host : Host} {laws : HostLaws host}.

Lemma compareProcs_flip (f : SortField) (a b : Process) :
  SortCompare (compareProcs f false) a b
  = CompOpp (SortCompare (compareProcs f true) a b).
Proof.
  unfold SortCompare, compareProcs.
  destruct f;
    match goal with
    | |- context [num_neg ?v] => destruct v as [|q]; simpl; auto
    end; apply Qcompare_opp_0.
Qed.

Lemma key_antisym (x y : number) :
  match y, x with Fin u, Fin v => Qcompare u v | _, _ => Eq end
  = CompOpp match x, y with Fin u, Fin v => Qcompare u v | _, _ => Eq end.
Proof.
  destruct x, y; try reflexivity. symmetry. apply Qcompare_antisym.
Qed.

Lemma key_trans (x y z : number) :
  match x, y with Fin u, Fin v => Qcompare u v | _, _ => Eq end = Lt ->
  match y, z with Fin u, Fin v => Qcompare u v | _, _ => Eq end = Lt ->
  match x, z with Fin u, Fin v => Qcompare u v | _, _ => Eq end = Lt.
Proof.
  destruct x, y, z; try discriminate. rewrite <- !Qlt_alt. apply Qlt_trans.
Qed.

Lemma localeCompare_antisym_cmp (s t : jsstring) :
  Z.compare (localeCompare t s) 0 = CompOpp (Z.compare (localeCompare s t) 0).
Proof.
  pose proof (localeCompare_sgn s t) as H.
  destruct (localeCompare s t), (localeCompare t s); simpl in *;
    try reflexivity; discriminate.
Qed.

Lemma localeCompare_trans_lt (s t u : jsstring) :
  Z.compare (localeCompare s t) 0 = Lt ->
  Z.compare (localeCompare t u) 0 = Lt ->
  Z.compare (localeCompare s u) 0 = Lt.
Proof.
  rewrite !Z.compare_lt_iff. intros H1 H2.
  assert (H3 : (localeCompare s u <= 0)%Z)
    by (apply (localeCompare_trans s t u); lia).
  destruct (Z.eq_dec (localeCompare s u) 0) as [H0|]; [|lia].
  exfalso.
  pose proof (localeCompare_sgn s u) as Hsu.
  rewrite H0 in Hsu. simpl in Hsu.
  assert (H4 : (localeCompare u s <= 0)%Z)
    by (destruct (localeCompare u s); simpl in Hsu; lia).
  assert (H5 : (localeCompare u t <= 0)%Z)
    by (apply (localeCompare_trans u s t); lia).
  pose proof (localeCompare_sgn t u) as Htu.
  destruct (localeCompare t u), (localeCompare u t); simpl in Htu; lia.
Qed.

Lemma compareProcs_antisym (f : SortField) (a b : Process) :
  SortCompare (compareProcs f true) b a
  = CompOpp (SortCompare (compareProcs f true) a b).
Proof.
  destruct f; unfold compareProcs.
  - rewrite !(SortCompare_num_sub pid). apply key_antisym.
  - rewrite !(SortCompare_num_sub cpu). apply key_antisym.
  - rewrite !(SortCompare_num_sub mem). apply key_antisym.
  - rewrite !(SortCompare_num_of_Z (fun a b => localeCompare (stat a) (stat b))).
    apply localeCompare_antisym_cmp.
  - rewrite !(SortCompare_num_of_Z
                (fun a b => localeCompare (command a) (command b))).
    apply localeCompare_antisym_cmp.
Qed.

Lemma compareProcs_trans (f : SortField) (a b c : Process) :
  SortCompare (compareProcs f true) a b = Lt ->
  SortCompare (compareProcs f true) b c = Lt ->
  SortCompare (compareProcs f true) a c = Lt.
Proof.
  destruct f; unfold compareProcs.
  - rewrite !(SortCompare_num_sub pid). apply key_trans.
  - rewrite !(SortCompare_num_sub cpu). apply key_trans.
  - rewrite !(SortCompare_num_sub mem). apply key_trans.
  - rewrite !(SortCompare_num_of_Z (fun a b => localeCompare (stat a) (stat b))).
    apply localeCompare_trans_lt.
  - rewrite !(SortCompare_num_of_Z
                (fun a b => localeCompare (command a) (command b))).
    apply localeCompare_trans_lt.
Qed.

(** C3, as amended.  For every sort field and every list of records in
    which no two records tie on the sort key (their keys differ and are
    not NaN), sorting ascending and then sorting the result descending
    gives the exact reverse of the ascending sequence. *)
Theorem sortProcs_ascending_then_descending
        (procs : list Process) (field : SortField) :
  tie_free (compareProcs field true) procs ->
  sortProcs (sortProcs procs field true) field false
  = List.rev (sortProcs procs field true).
Proof.
  intros Ht. unfold sortProcs.
  apply sort_up_then_down; auto.
  - apply compareProcs_flip.
  - apply compareProcs_antisym.
  - apply compareProcs_trans.
Qed.
End SortProcsFacts.

(** The tests of [statLabel]. *)
Example statLabel_tests :
  List.map statLabel [js "R+"; js "Ss"; js "D"; js "T"; js "Z"; js "I"; js "X+"]
  = [js "Running"; js "Sleeping"; js "Disk"; js "Stopped"; js "Zombie";
     js "Idle"; js "X+"].
Proof. reflexivity. Qed.

(** The tests of [sortProcs]. *)
Example sort_by_pid_ascending :
  List.map pid (sortProcs [makeProc 300 0; makeProc 100 0; makeProc 200 0]
                          F_pid true)
  = [Fin 100; Fin 200; Fin 300].
Proof. reflexivity. Qed.

Example sort_by_cpu_ascending :
  List.map cpu (sortProcs cpu_records F_cpu true) = [Fin 5; Fin 20; Fin 50].
Proof. reflexivity. Qed.

Example sort_scenario :
  List.map pid (sortProcs cpu_records F_cpu false) = [Fin 2; Fin 3; Fin 1].
Proof. reflexivity. Qed.

Lemma sortProcs_ascending_then_descending_witness :
  tie_free (compareProcs F_cpu true) cpu_records
  /\ sortProcs (sortProcs cpu_records F_cpu true) F_cpu false
     = List.rev (sortProcs cpu_records F_cpu true).
Proof.
  assert (H : tie_free (compareProcs F_cpu true) cpu_records)
    by (simpl; repeat split; repeat constructor; discriminate).
  split; [exact H|].
  exact (@sortProcs_ascending_then_descending asciiHost asciiHostLaws
           cpu_records F_cpu H).
Defined.

(** C3 as stated fails on a tie: the sort keeps records that compare
    equal in their order, so two records with the same cpu share come out
    of the descending sort in the order of the ascending one. *)
Lemma sortProcs_tie_not_reversed :
  sortProcs (sortProcs tied_records F_cpu true) F_cpu false
  = [makeProc 1 5; makeProc 2 5]
  /\ List.rev (sortProcs tied_records F_cpu true)
     = [makeProc 2 5; makeProc 1 5]
  /\ sortProcs (sortProcs tied_records F_cpu true) F_cpu false
     <> List.rev (sortProcs tied_records F_cpu true).
Proof.
  split; [reflexivity|]. split; [reflexivity|]. discriminate.
Qed.

(* ------------------------------------------------------------------ *)
(** * View state machine *)

Ltac cases_if :=
  repeat (match goal with
          | |- context [if ?c then _ else _] =>
              lazymatch c with
              | context [if _ then _ else _] => fail
              | _ => destruct c eqn:?
              end
          end; cbn).

Ltac to_Z_props :=
  repeat match goal with
         | H : (_ >? _)%Z = _ |- _ => rewrite Z.gtb_ltb in H
         | H : (_ >=? _)%Z = _ |- _ => rewrite Z.geb_leb in H
         | H : (_ <? _)%Z = true |- _ => apply Z.ltb_lt in H
         | H : (_ <? _)%Z = false |- _ => apply Z.ltb_ge in H
         | H : (_ <=? _)%Z = true |- _ => apply Z.leb_le in H
         | H : (_ <=? _)%Z = false |- _ => apply Z.leb_gt in H
         end.

(** What [ensureVisible] leaves alone, and what it establishes. *)
Lemma ensureVisible_frame (st : State) :
  displayed (ensureVisible st) = displayed st
  /\ viewportH (ensureVisible st) = viewportH st
  /\ selected (ensureVisible st) = selected st
  /\ confirm (ensureVisible st) = confirm st
  /\ filtering (ensureVisible st) = filtering st
  /\ sortBy (ensureVisible st) = sortBy st
  /\ sortAsc (ensureVisible st) = sortAsc st
  /\ filter (ensureVisible st) = filter st.
Proof.
  destruct st as [sb sa disp sel off flt fing cf rf ds h ct cv].
  unfold ensureVisible, clampScroll, len, set_scrollOffset. cbn.
  cases_if; repeat split.
Qed.

Lemma ensureVisible_inv (st : State) :
  (1 <= viewportH st)%Z ->
  (0 <= selected st <= Z.max 0 (len st - 1))%Z ->
  view_inv (ensureVisible st).
Proof.
  destruct st as [sb sa disp sel off flt fing cf rf ds h ct cv].
  unfold view_inv, ensureVisible, clampScroll, len, set_scrollOffset. cbn.
  intros Hh Hsel.
  cases_if; to_Z_props; repeat split; lia.
Qed.

Section ViewFacts.
Context {host : Host}.

Lemma keypress_navigation (k : KeyEvent) (w : World) (st : State) :
  confirm st = None -> filtering st = false ->
  In (name k) navigation_keys ->
  exists sel,
    (keypress k w st = (renderRows (set_selected sel st), [], Returned)
     \/ (keypress k w st = (st, [], Returned) /\ sel = selected st))
    /\ ((displayed st <> [] \/ name k <> js "d") ->
        (0 <= selected st <= Z.max 0 (len st - 1))%Z ->
        (1 <= viewportH st)%Z ->
        (0 <= sel <= Z.max 0 (len st - 1))%Z).
Proof.
  intros Hc Hf Hk. unfold keypress, is_key. rewrite Hc, Hf.
  assert (Hlen : displayed st <> [] -> (1 <= len st)%Z).
  { unfold len. destruct (displayed st); [congruence|]. simpl List.length. lia. }
  assert (Hlen0 : (0 <= len st)%Z) by (unfold len; lia).
  simpl in Hk.
  repeat (destruct Hk as [Hk|Hk]; [symmetry in Hk|]); try contradiction;
    rewrite Hk; cbn.
  - destruct (selected st <? len st - 1)%Z eqn:E.
    + exists (selected st + 1)%Z. split; [now left|]. to_Z_props. lia.
    + exists (selected st). split; [now right|]. lia.
  - destruct (selected st <? len st - 1)%Z eqn:E.
    + exists (selected st + 1)%Z. split; [now left|]. to_Z_props. lia.
    + exists (selected st). split; [now right|]. lia.
  - destruct (selected st >? 0)%Z eqn:E.
    + exists (selected st - 1)%Z. split; [now left|]. to_Z_props. lia.
    + exists (selected st). split; [now right|]. lia.
  - destruct (selected st >? 0)%Z eqn:E.
    + exists (selected st - 1)%Z. split; [now left|]. to_Z_props. lia.
    + exists (selected st). split; [now right|]. lia.
  - eexists. split; [left; reflexivity|].
    intros [Hd|Hd] Hs Hh; [|congruence].
    specialize (Hlen Hd).
    assert (0 <= viewportH st / 2)%Z by (apply Z.div_pos; lia). lia.
  - eexists. split; [left; reflexivity|]. intros _ Hs Hh.
    assert (0 <= viewportH st / 2)%Z by (apply Z.div_pos; lia). lia.
  - eexists. split; [left; reflexivity|]. lia.
  - eexists. split; [left; reflexivity|]. lia.
Qed.

(** One key of navigation keeps the bounds, but for half page down on an
    empty list. *)
Lemma navigation_step (k : KeyEvent) (w : World) (st : State) :
  confirm st = None -> filtering st = false ->
  In (name k) navigation_keys ->
  (displayed st <> [] \/ name k <> js "d") ->
  (1 <= viewportH st)%Z -> view_inv st ->
  let st' := fst (fst (keypress k w st)) in
  view_inv st' /\ displayed st' = displayed st
  /\ viewportH st' = viewportH st
  /\ confirm st' = None /\ filtering st' = false.
Proof.
  intros Hc Hf Hk Hd Hh Hinv st'. subst st'.
  destruct (keypress_navigation k w st Hc Hf Hk) as (sel & [He|[He _]] & Hsel);
    rewrite He; cbn [fst]; [|repeat split; auto; apply Hinv].
  unfold renderRows.
  destruct (ensureVisible_frame (set_selected sel st))
    as (H1 & H2 & H3 & H4 & H5 & _).
  rewrite H1, H2, H4, H5.
  assert (Hs : (0 <= sel <= Z.max 0 (len st - 1))%Z)
    by (apply Hsel; auto; apply Hinv).
  destruct st; cbn in *.
  split; [apply ensureVisible_inv; cbn; assumption | repeat split; auto].
Qed.

(** Any sequence of navigation keeps the bounds on a list that is not
    empty, and on an empty list as long as half page down is not in it. *)
Lemma navigation_keeps_bounds (ks : list KeyEvent) (w : World) :
  forall st,
    confirm st = None -> filtering st = false ->
    Forall (fun k => In (name k) navigation_keys) ks ->
    (displayed st <> [] \/ Forall (fun k => name k <> js "d") ks) ->
    (1 <= viewportH st)%Z -> view_inv st ->
    view_inv (run_keys ks w st)
    /\ displayed (run_keys ks w st) = displayed st.
Proof.
  induction ks as [|k ks IH]; intros st Hc Hf Hks Hd Hh Hinv; simpl.
  - auto.
  - inversion Hks as [|? ? Hk Hks']; subst.
    assert (Hd1 : displayed st <> [] \/ name k <> js "d").
    { destruct Hd as [Hd|Hd]; [now left|right]. now inversion Hd. }
    destruct (navigation_step k w st Hc Hf Hk Hd1 Hh Hinv)
      as (Hi & Hdisp & Hvh & Hc' & Hf').
    destruct (IH (fst (fst (keypress k w st)))) as [Hr1 Hr2]; auto.
    + rewrite Hdisp. destruct Hd as [Hd|Hd]; [now left|right].
      now inversion Hd.
    + now rewrite Hvh.
    + split; [exact Hr1|]. now rewrite Hr2.
Qed.
End ViewFacts.

Section RefreshFacts.
Context {host : Host}.

(** What a refresh cycle never touches. *)
Lemma refresh_frame (w : World) (st : State) :
  sortBy (fst (refresh w st)) = sortBy st
  /\ sortAsc (fst (refresh w st)) = sortAsc st
  /\ filter (fst (refresh w st)) = filter st
  /\ filtering (fst (refresh w st)) = filtering st
  /\ confirm (fst (refresh w st)) = confirm st
  /\ viewportH (fst (refresh w st)) = viewportH st.
Proof.
  unfold refresh.
  destruct (refreshing st || destroyed st); [repeat split|].
  destruct (getProcesses w) as [procs|]; [|repeat split].
  cbv zeta. cbn [fst].
  match goal with |- context [renderRows ?X] => set (st2 := X) end.
  unfold renderRows.
  destruct (ensureVisible_frame st2)
    as (_ & Hv & _ & Hc & Hf & Hsb & Hsa & Hfl).
  cbn [sortBy sortAsc filter filtering confirm viewportH set_refreshing].
  rewrite Hv, Hc, Hf, Hsb, Hsa, Hfl.
  subst st2.
  match goal with |- context [if ?c then _ else _] => destruct c end;
    repeat split.
Qed.

(** A refresh cycle that gets its snapshot establishes the bounds, when
    the selection was not negative before. *)
Lemma refresh_establishes_bounds (w : World) (st : State) (procs : list Process) :
  refreshing st = false -> destroyed st = false ->
  getProcesses w = Some procs ->
  (1 <= viewportH st)%Z -> (0 <= selected st)%Z ->
  view_inv (fst (refresh w st))
  /\ displayed (fst (refresh w st))
     = applyFilter (filter st) (sortProcs procs (sortBy st) (sortAsc st)).
Proof.
  intros Hr Hd Hg Hh Hs. unfold refresh. rewrite Hr, Hd, Hg.
  cbv zeta. cbn [orb fst].
  match goal with |- context [renderRows ?X] => set (st2 := X) end.
  unfold renderRows.
  destruct (ensureVisible_frame st2) as (Hdisp & _).
  assert (Hinv : view_inv (ensureVisible st2)).
  { apply ensureVisible_inv; subst st2;
      match goal with |- context [if ?c then _ else _] => destruct c eqn:E end;
      unfold len in *;
      cbn [viewportH selected displayed set_selected set_displayed
           set_refreshing] in *; to_Z_props; lia. }
  split.
  - unfold view_inv, len in *.
    cbn [selected scrollOffset viewportH displayed set_refreshing].
    exact Hinv.
  - cbn [displayed set_refreshing]. rewrite Hdisp. subst st2.
    match goal with |- context [if ?c then _ else _] => destruct c end;
      reflexivity.
Qed.

(** C6.  In normal mode the sort-cycle key moves the sort field to its
    successor in the cycle pid, cpu, mem, status, command, pid, and sets
    the direction: ascending exactly when the new field is pid or command,
    descending for cpu, mem and status. *)
Theorem sort_cycle_key (k : KeyEvent) (w : World) (st : State) :
  confirm st = None -> filtering st = false -> name k = js "s" ->
  sortBy (fst (fst (keypress k w st))) = cycle_successor (sortBy st)
  /\ sortAsc (fst (fst (keypress k w st)))
     = match cycle_successor (sortBy st) with
       | F_pid | F_command => true
       | F_cpu | F_mem | F_status => false
       end.
Proof.
  intros Hc Hf Hk. unfold keypress, is_key. rewrite Hc, Hf, Hk. cbn.
  match goal with
  | |- context [refresh w ?s] =>
      destruct (refresh_frame w s) as (H1 & H2 & _);
      destruct (refresh w s) as [st' o]
  end.
  cbn in *. rewrite H1, H2.
  destruct st as [sb sa disp sel off flt fing cf rf ds h ct cv].
  cbn. destruct sb; split; reflexivity.
Qed.

(** C8.  While a confirmation is pending a key never changes the sort
    field, the direction, the filter text or the editing mode, and the
    confirmation is over after it; a key other than "y" clears the
    confirmation (and hides its bar), dispatches nothing and leaves every
    other variable as it was.  In normal mode the kill, terminate and
    restart keys do nothing when there is no record at the selected index,
    as on an empty list. *)
Theorem confirmation_gate (k : KeyEvent) (w : World) (st : State) :
  (forall c, confirm st = Some c ->
     sortBy (fst (fst (keypress k w st))) = sortBy st
     /\ sortAsc (fst (fst (keypress k w st))) = sortAsc st
     /\ filter (fst (fst (keypress k w st))) = filter st
     /\ filtering (fst (fst (keypress k w st))) = filtering st
     /\ confirm (fst (fst (keypress k w st))) = None
     /\ (name k <> js "y" ->
         keypress k w st = (clear_confirm st, [], Returned)
         /\ displayed (clear_confirm st) = displayed st
         /\ selected (clear_confirm st) = selected st
         /\ scrollOffset (clear_confirm st) = scrollOffset st))
  /\ (confirm st = None -> filtering st = false ->
      In (name k) [js "K"; js "t"; js "r"] ->
      at_index (displayed st) (selected st) = None ->
      keypress k w st = (st, [], Returned))
  /\ (displayed st = [] -> at_index (displayed st) (selected st) = None).
Proof.
  split; [|split].
  - intros c Hc. unfold keypress, is_key. rewrite Hc.
    destruct (str_eqb (name k) (js "y")) eqn:Hy.
    + pose proof (refresh_frame w (clear_confirm st)) as HF.
      destruct (refresh w (clear_confirm st)) as [st' o].
      cbn [fst sortBy sortAsc filter filtering confirm clear_confirm] in HF.
      destruct HF as (H1 & H2 & H3 & H4 & H5 & _). cbn [fst].
      split; [exact H1|]. split; [exact H2|]. split; [exact H3|].
      split; [exact H4|]. split; [exact H5|].
      intros Hn. apply str_eqb_eq in Hy. contradiction.
    + cbn [fst sortBy sortAsc filter filtering confirm clear_confirm
           displayed selected scrollOffset].
      repeat split.
  - intros Hc Hf Hk Hnone. unfold keypress, is_key, requestAction.
    rewrite Hc, Hf, Hnone. simpl in Hk.
    repeat (destruct Hk as [Hk|Hk]; [symmetry in Hk|]); try contradiction;
      rewrite Hk; reflexivity.
  - intros Hd. unfold at_index. rewrite Hd.
    destruct (selected st <? 0)%Z; [reflexivity|].
    now destruct (Z.to_nat (selected st)).
Qed.

(** C9, as amended.  When the snapshot fetch throws in a refresh cycle,
    the cycle ends with every variable of the view as it was (the list
    shown, the selection and the scroll offset among them).  The
    exception leaves [refresh]: at startup it reaches the handler of
    [main], which ends the process with exit code 1.  It also leaves the
    timer callback and the key handler; whatever the key, the list shown
    is the former one, and when the handler ends by the exception the
    selection and the scroll offset are the former ones too, while what
    the key itself wrote before the cycle stays (the flipped direction of
    the flip key). *)
Theorem refresh_fetch_failure (w : World) (st : State) :
  ps_output w = None -> refreshing st = false -> destroyed st = false ->
  refresh w st = (st, Thrown)
  /\ (filtering st = false -> confirm st = None -> tick w st = (st, Thrown))
  /\ (forall height,
         main height w = (initial height, [E_console_error], Exited 1))
  /\ (forall k,
         displayed (fst (fst (keypress k w st))) = displayed st
         /\ (snd (keypress k w st) = Thrown ->
             selected (fst (fst (keypress k w st))) = selected st
             /\ scrollOffset (fst (fst (keypress k w st))) = scrollOffset st
             /\ refreshing (fst (fst (keypress k w st))) = false))
  /\ (filtering st = false -> confirm st = None ->
      keypress (key_named "S") w st
      = (set_sort (sortBy st) (negb (sortAsc st)) st, [], Thrown)).
Proof.
  intros Hw Hr Hd.
  assert (Hg : getProcesses w = None) by (unfold getProcesses; now rewrite Hw).
  assert (H : forall s, refreshing s = false -> destroyed s = false ->
                        refresh w s = (s, Thrown)).
  { intros s Hr' Hd'. unfold refresh. rewrite Hr', Hd', Hg. cbn.
    destruct s; cbn in *. now subst. }
  split; [now apply H|]. split; [|split; [|split]].
  - intros Hf Hc. unfold tick. rewrite Hf, Hc, Hd. cbn. now apply H.
  - intros height. unfold main. now rewrite (H (initial height)).
  - intros k. unfold keypress.
    repeat match goal with
           | |- context [match confirm st with _ => _ end] =>
               destruct (confirm st)
           | |- context [match sequence k with _ => _ end] =>
               destruct (sequence k) as [[|? [|? ?]]|]
           | |- context [if ?c then _ else _] => destruct c
           end;
      rewrite ?H by (first [exact Hr | exact Hd]); cbn [fst snd];
      (split;
       [ first [ reflexivity
               | unfold renderRows;
                 now rewrite (proj1 (ensureVisible_frame _))
               | unfold requestAction;
                 now destruct (at_index (displayed st) (selected st)) ]
       | intros Ht; first [ discriminate Ht | now repeat split ] ]).
  - intros Hf Hc. unfold keypress, is_key. rewrite Hc, Hf. cbn.
    now rewrite H.
Qed.
End RefreshFacts.

Lemma sort_cycle_key_witness :
  confirm (initial 29) = None /\ filtering (initial 29) = false
  /\ name (key_named "s") = js "s"
  /\ sortBy (fst (fst (keypress (key_named "s") idle_world (initial 29))))
     = F_mem
  /\ sortAsc (fst (fst (keypress (key_named "s") idle_world (initial 29))))
     = false.
Proof.
  split; [reflexivity|]. split; [reflexivity|]. split; [reflexivity|].
  exact (sort_cycle_key (key_named "s") idle_world (initial 29)
           eq_refl eq_refl eq_refl).
Defined.

Lemma confirmation_gate_witness :
  confirm confirming_state
  = Some (mkConfirm (Fin 123) (js "/usr/sbin/syslogd") A_kill)
  /\ name (key_named "n") <> js "y"
  /\ keypress (key_named "n") syslogd_world confirming_state
     = (clear_confirm confirming_state, [], Returned).
Proof.
  assert (Hc : confirm confirming_state
               = Some (mkConfirm (Fin 123) (js "/usr/sbin/syslogd") A_kill))
    by (vm_compute; reflexivity).
  assert (Hn : name (key_named "n") <> js "y") by discriminate.
  split; [exact Hc|]. split; [exact Hn|].
  exact (proj1 (proj2 (proj2 (proj2 (proj2 (proj2
           (proj1 (confirmation_gate (key_named "n") syslogd_world
                                     confirming_state) _ Hc))))) Hn)).
Defined.

Lemma refresh_fetch_failure_witness :
  ps_output failing_world = None
  /\ refreshing (initial 29) = false /\ destroyed (initial 29) = false
  /\ refresh failing_world (initial 29) = (initial 29, Thrown).
Proof.
  split; [reflexivity|]. split; [reflexivity|]. split; [reflexivity|].
  exact (proj1 (refresh_fetch_failure failing_world (initial 29)
                  eq_refl eq_refl eq_refl)).
Defined.

(** The first refresh cycle on the header and the syslogd line shows the
    one record, selected. *)
Example startup_shows_syslogd :
  List.map command (displayed (fst (fst (main 29 syslogd_world))))
  = [js "/usr/sbin/syslogd"]
  /\ selected (fst (fst (main 29 syslogd_world))) = 0%Z
  /\ snd (main 29 syslogd_world) = Returned.
Proof. vm_compute. repeat split. Qed.

(** A [ps] that prints nothing does not throw: the cycle completes and
    the list shown becomes empty. *)
Example refresh_on_empty_output :
  displayed
    (fst (refresh (mkWorld (Some []) (Fin 4242) false)
                  (fst (fst (main 29 syslogd_world)))))
  = [].
Proof. vm_compute. reflexivity. Qed.

(** C9 as stated fails in its last part: when the fetch throws in the
    first refresh cycle, the process exits with code 1. *)
Lemma startup_fetch_failure_exits :
  ps_output failing_world = None
  /\ snd (main 29 failing_world) = Exited 1.
Proof. split; reflexivity. Qed.

(** C7, the defect.  On an empty list the half-page-down key leaves the
    selection at -1: the list shown is empty, the selection was 0 and the
    viewport has 24 rows. *)
Theorem half_page_down_on_empty_list :
  displayed (fst (fst (main 29 idle_world))) = []
  /\ selected (fst (fst (main 29 idle_world))) = 0%Z
  /\ viewportH (fst (fst (main 29 idle_world))) = 24%Z
  /\ selected (fst (fst (keypress (key_named "d") idle_world
                                  (fst (fst (main 29 idle_world))))))
     = (-1)%Z
  /\ selected (fst (fst (keypress (key_named "G") idle_world
                                  (fst (fst (main 29 idle_world))))))
     = 0%Z.
Proof. vm_compute. repeat split. Qed.

(* ------------------------------------------------------------------ *)
(** * Further properties: the sort *)

Section SortContract.
Context {A : Type}.
Variable cmp : A -> A -> number.

Lemma sort_insert_perm (x : A) (l : list A) :
  Permutation (x :: l) (sort_insert cmp x l).
Proof.
  induction l as [|y l IH]; simpl; [reflexivity|].
  destruct (SortCompare cmp x y); try reflexivity.
  rewrite perm_swap. now constructor.
Qed.

Lemma array_sort_perm (l : list A) : Permutation l (array_sort cmp l).
Proof.
  induction l as [|x l IH]; simpl; [reflexivity|].
  rewrite <- sort_insert_perm. now constructor.
Qed.

Lemma array_sort_fixed (l : list A) :
  Sorted (in_order cmp) l -> array_sort cmp l = l.
Proof.
  induction 1 as [|x l Hs IH Hx]; simpl; [reflexivity|].
  rewrite IH. destruct Hx as [|y l Hxy]; simpl; [reflexivity|].
  unfold in_order in Hxy. destruct (SortCompare cmp x y); congruence.
Qed.

Lemma filter_sort_insert_in (p : A -> bool) (x : A) (l : list A) :
  p x = true ->
  (forall z, p z = true -> SortCompare cmp x z = Eq) ->
  List.filter p (sort_insert cmp x l) = x :: List.filter p l.
Proof.
  intros Hx Htie. induction l as [|y l IH]; simpl; [now rewrite Hx|].
  destruct (SortCompare cmp x y) eqn:Hc; simpl; rewrite ?Hx; try reflexivity.
  destruct (p y) eqn:Hy; [|exact IH].
  rewrite (Htie y Hy) in Hc. discriminate.
Qed.

Lemma filter_sort_insert_out (p : A -> bool) (x : A) (l : list A) :
  p x = false ->
  List.filter p (sort_insert cmp x l) = List.filter p l.
Proof.
  intros Hx. induction l as [|y l IH]; simpl; [now rewrite Hx|].
  destruct (SortCompare cmp x y); simpl; rewrite ?Hx, ?IH; reflexivity.
Qed.

Lemma array_sort_stable (p : A -> bool) (l : list A) :
  (forall a b, p a = true -> p b = true -> SortCompare cmp a b = Eq) ->
  List.filter p (array_sort cmp l) = List.filter p l.
Proof.
  intros Htie. induction l as [|x l IH]; simpl; [reflexivity|].
  destruct (p x) eqn:Hx.
  - rewrite filter_sort_insert_in; auto. now rewrite IH.
  - rewrite filter_sort_insert_out; auto.
Qed.

Hypothesis cmp_antisym :
  forall a b, SortCompare cmp b a = CompOpp (SortCompare cmp a b).

Lemma sort_insert_Sorted (x : A) (l : list A) :
  Sorted (in_order cmp) l -> Sorted (in_order cmp) (sort_insert cmp x l).
Proof.
  induction 1 as [|y l Hs IH Hy]; simpl.
  - repeat constructor.
  - destruct (SortCompare cmp x y) eqn:Hc.
    + constructor; [now constructor|]. constructor.
      unfold in_order. rewrite Hc. discriminate.
    + constructor; [now constructor|]. constructor.
      unfold in_order. rewrite Hc. discriminate.
    + constructor; [exact IH|].
      destruct l as [|z l]; simpl.
      * constructor. unfold in_order. rewrite cmp_antisym, Hc. discriminate.
      * destruct (SortCompare cmp x z).
        -- constructor. unfold in_order. rewrite cmp_antisym, Hc. discriminate.
        -- constructor. unfold in_order. rewrite cmp_antisym, Hc. discriminate.
        -- inversion Hy; subst. now constructor.
Qed.

Lemma array_sort_Sorted (l : list A) : Sorted (in_order cmp) (array_sort cmp l).
Proof.
  induction l as [|x l IH]; simpl; [constructor|].
  now apply sort_insert_Sorted.
Qed.

Lemma Sorted_strong_on (l : list A) :
  (forall a b c, In a l -> In b l -> In c l ->
                 in_order cmp a b -> in_order cmp b c -> in_order cmp a c) ->
  Sorted (in_order cmp) l -> StronglySorted (in_order cmp) l.
Proof.
  intros Htr Hs. induction Hs as [|x l Hs IH Hx]; [constructor|].
  assert (IH' : StronglySorted (in_order cmp) l).
  { apply IH. intros a b c Ha Hb Hc. apply Htr; now right. }
  constructor; [exact IH'|].
  destruct Hx as [|y l Hxy]; [constructor|].
  constructor; [exact Hxy|].
  inversion IH' as [|? ? _ Hall]; subst.
  apply Forall_forall. intros z Hz.
  rewrite Forall_forall in Hall.
  apply (Htr x y z); simpl; auto.
Qed.
End SortContract.

Section StableUnique.
Context {A : Type}.
Variable cmp : A -> A -> number.
Variable ok : A -> bool.

Hypothesis cmp_antisym :
  forall a b, SortCompare cmp b a = CompOpp (SortCompare cmp a b).
Hypothesis ties_trans :
  forall x u v, ok x = true -> ok u = true -> ok v = true ->
                SortCompare cmp x u = Eq -> SortCompare cmp x v = Eq ->
                SortCompare cmp u v = Eq.

Lemma in_order_refl (a : A) : SortCompare cmp a a = Eq.
Proof.
  pose proof (cmp_antisym a a) as H.
  destruct (SortCompare cmp a a); simpl in H; congruence.
Qed.

Lemma in_order_both (a b : A) :
  in_order cmp a b -> in_order cmp b a -> SortCompare cmp a b = Eq.
Proof.
  unfold in_order. rewrite (cmp_antisym a b).
  destruct (SortCompare cmp a b); simpl; congruence.
Qed.

Lemma head_in_order (a b : A) (t1 t2 : list A) :
  Permutation (a :: t1) (b :: t2) ->
  StronglySorted (in_order cmp) (a :: t1) -> in_order cmp a b.
Proof.
  intros Hp Hs.
  assert (Hb : In b (a :: t1))
    by (eapply Permutation_in; [symmetry; exact Hp | now left]).
  inversion Hs as [|? ? _ Hall]; subst.
  destruct Hb as [->|Hb].
  - unfold in_order. rewrite in_order_refl. discriminate.
  - rewrite Forall_forall in Hall. now apply Hall.
Qed.

(** Two rearrangements of one list that are both in order and keep every
    class of ties in the same order are the same list. *)
Lemma stable_sorted_unique (l1 : list A) :
  forall l2,
    Forall (fun x => ok x = true) l1 ->
    Permutation l1 l2 ->
    StronglySorted (in_order cmp) l1 -> StronglySorted (in_order cmp) l2 ->
    (forall p, tie_class cmp p -> List.filter p l1 = List.filter p l2) ->
    l1 = l2.
Proof.
  induction l1 as [|a t1 IH]; intros l2 Hok Hp Hs1 Hs2 Hst.
  - apply Permutation_nil in Hp. now subst.
  - destruct l2 as [|b t2];
      [symmetry in Hp; apply Permutation_nil in Hp; discriminate|].
    assert (Hab : SortCompare cmp a b = Eq).
    { apply in_order_both.
      - exact (head_in_order a b t1 t2 Hp Hs1).
      - apply (head_in_order b a t2 t1); [now symmetry | exact Hs2]. }
    assert (Hoka : ok a = true) by now inversion Hok.
    assert (Hokb : ok b = true).
    { rewrite Forall_forall in Hok. apply Hok.
      eapply Permutation_in; [symmetry; exact Hp | now left]. }
    set (p := fun y => match SortCompare cmp a y with
                       | Eq => ok y
                       | _ => false
                       end).
    assert (Hcls : tie_class cmp p).
    { intros u v Hu Hv. unfold p in Hu, Hv.
      destruct (SortCompare cmp a u) eqn:Eu; try discriminate.
      destruct (SortCompare cmp a v) eqn:Ev; try discriminate.
      now apply (ties_trans a u v). }
    pose proof (Hst p Hcls) as Hf. simpl in Hf.
    assert (Hpa : p a = true) by (unfold p; now rewrite in_order_refl).
    assert (Hpb : p b = true) by (unfold p; now rewrite Hab).
    rewrite Hpa, Hpb in Hf. inversion Hf; subst b. f_equal.
    apply IH.
    + now inversion Hok.
    + now apply Permutation_cons_inv in Hp.
    + now inversion Hs1.
    + now inversion Hs2.
    + intros q Hq. specialize (Hst q Hq). simpl in Hst.
      destruct (q a); [now inversion Hst | exact Hst].
Qed.
End StableUnique.

Section SortProcsContract.
Context {host : Host} {laws : HostLaws host}.

Lemma compareProcs_antisym_any (f : SortField) (asc : bool) (a b : Process) :
  SortCompare (compareProcs f asc) b a
  = CompOpp (SortCompare (compareProcs f asc) a b).
Proof.
  destruct asc; [apply compareProcs_antisym|].
  rewrite !compareProcs_flip. f_equal. apply compareProcs_antisym.
Qed.

Lemma in_order_descending (f : SortField) (a b : Process) :
  in_order (compareProcs f false) a b <-> in_order (compareProcs f true) b a.
Proof.
  unfold in_order. rewrite compareProcs_flip, <- compareProcs_antisym. tauto.
Qed.

Lemma in_order_numeric (f : SortField) (a b : Process) (x y : Q) :
  num_key f a = Some (Fin x) -> num_key f b = Some (Fin y) ->
  (in_order (compareProcs f true) a b <-> (x <= y)%Q)
  /\ (in_order (compareProcs f false) a b <-> (y <= x)%Q).
Proof.
  intros Ha Hb.
  assert (H : forall a b x y,
             num_key f a = Some (Fin x) -> num_key f b = Some (Fin y) ->
             (in_order (compareProcs f true) a b <-> (x <= y)%Q)).
  { clear. intros a b x y Ha Hb. unfold in_order, compareProcs.
    destruct f; simpl in Ha, Hb; try discriminate;
      inversion Ha as [Ha']; inversion Hb as [Hb'];
      [rewrite (SortCompare_num_sub pid) | rewrite (SortCompare_num_sub cpu)
       | rewrite (SortCompare_num_sub mem)];
      rewrite Ha', Hb'; symmetry; apply Qle_alt. }
  split; [now apply H|].
  rewrite in_order_descending. now apply H.
Qed.

Lemma in_order_trans (f : SortField) (asc : bool) (a b c : Process) :
  key_defined f a -> key_defined f b -> key_defined f c ->
  in_order (compareProcs f asc) a b -> in_order (compareProcs f asc) b c ->
  in_order (compareProcs f asc) a c.
Proof.
  assert (H : forall a b c,
             key_defined f a -> key_defined f b -> key_defined f c ->
             in_order (compareProcs f true) a b ->
             in_order (compareProcs f true) b c ->
             in_order (compareProcs f true) a c).
  { clear a b c. intros a b c Ha Hb Hc. unfold in_order, compareProcs.
    destruct f; simpl in Ha, Hb, Hc.
    - rewrite !(SortCompare_num_sub pid).
      destruct (pid a), (pid b), (pid c); try congruence.
      rewrite <- !Qle_alt. apply Qle_trans.
    - rewrite !(SortCompare_num_sub cpu).
      destruct (cpu a), (cpu b), (cpu c); try congruence.
      rewrite <- !Qle_alt. apply Qle_trans.
    - rewrite !(SortCompare_num_sub mem).
      destruct (mem a), (mem b), (mem c); try congruence.
      rewrite <- !Qle_alt. apply Qle_trans.
    - rewrite !(SortCompare_num_of_Z (fun a b => localeCompare (stat a) (stat b))).
      exact (localeCompare_trans (stat a) (stat b) (stat c)).
    - rewrite !(SortCompare_num_of_Z
                  (fun a b => localeCompare (command a) (command b))).
      exact (localeCompare_trans (command a) (command b) (command c)). }
  intros Ha Hb Hc. destruct asc; [now apply H|].
  rewrite !in_order_descending. intros H1 H2. now apply (H c b a).
Qed.
End SortProcsContract.

Section SortProcsTheorems.
Context {host : Host}.

(** X1.  Sorting loses and invents nothing: the result of [sortProcs] is a
    rearrangement of its argument, whatever the field, the direction and
    the keys (NaN included). *)
Theorem sortProcs_permutation (procs : list Process) (f : SortField)
        (asc : bool) :
  Permutation procs (sortProcs procs f asc)
  /\ List.length (sortProcs procs f asc) = List.length procs
  /\ (forall p, In p (sortProcs procs f asc) <-> In p procs).
Proof.
  assert (H : Permutation procs (sortProcs procs f asc))
    by apply array_sort_perm.
  split; [exact H|]. split.
  - symmetry. now apply Permutation_length.
  - intros p. split; apply Permutation_in; [symmetry|]; exact H.
Qed.

Lemma key_class_ties (f : SortField) (asc : bool) (v : Q) (a b : Process) :
  key_is f v a = true -> key_is f v b = true ->
  SortCompare (compareProcs f asc) a b = Eq.
Proof.
  unfold key_is. intros Ha Hb.
  assert (H : SortCompare (compareProcs f true) a b = Eq).
  { unfold compareProcs. unfold num_key in Ha, Hb.
    destruct f; try discriminate.
    - rewrite (SortCompare_num_sub pid).
      destruct (pid a), (pid b); try discriminate.
      apply Qeq_bool_iff in Ha, Hb. apply Qeq_alt. now rewrite Ha, Hb.
    - rewrite (SortCompare_num_sub cpu).
      destruct (cpu a), (cpu b); try discriminate.
      apply Qeq_bool_iff in Ha, Hb. apply Qeq_alt. now rewrite Ha, Hb.
    - rewrite (SortCompare_num_sub mem).
      destruct (mem a), (mem b); try discriminate.
      apply Qeq_bool_iff in Ha, Hb. apply Qeq_alt. now rewrite Ha, Hb. }
  destruct asc; [exact H|]. now rewrite compareProcs_flip, H.
Qed.

Context {laws : HostLaws host}.

Lemma has_key_defined (f : SortField) (p : Process) :
  has_key f p = true <-> key_defined f p.
Proof.
  unfold has_key, key_defined, num_key.
  destruct f; try tauto;
    match goal with |- context [match ?x with _ => _ end] => destruct x end;
    split; congruence.
Qed.

Lemma compareProcs_ties_trans (f : SortField) (asc : bool) (x u v : Process) :
  has_key f x = true -> has_key f u = true -> has_key f v = true ->
  SortCompare (compareProcs f asc) x u = Eq ->
  SortCompare (compareProcs f asc) x v = Eq ->
  SortCompare (compareProcs f asc) u v = Eq.
Proof.
  rewrite !has_key_defined. intros Hx Hu Hv Exu Exv.
  assert (Eux : SortCompare (compareProcs f asc) u x = Eq)
    by (rewrite compareProcs_antisym_any, Exu; reflexivity).
  assert (Evx : SortCompare (compareProcs f asc) v x = Eq)
    by (rewrite compareProcs_antisym_any, Exv; reflexivity).
  apply (in_order_both _ (compareProcs_antisym_any f asc)).
  - apply (in_order_trans f asc u x v); auto; unfold in_order; congruence.
  - apply (in_order_trans f asc v x u); auto; unfold in_order; congruence.
Qed.

Lemma sortProcs_strongly_sorted (procs : list Process) (f : SortField)
      (asc : bool) :
  Forall (key_defined f) procs ->
  StronglySorted (in_order (compareProcs f asc)) (sortProcs procs f asc).
Proof.
  intros Hk. apply Sorted_strong_on.
  - intros a b c Ha Hb Hc. rewrite Forall_forall in Hk.
    apply in_order_trans; apply Hk;
      unfold sortProcs in *; eapply array_sort_In; eassumption.
  - apply array_sort_Sorted. apply compareProcs_antisym_any.
Qed.

(** X2.  When the sort keys are numbers (no NaN among them; status and
    command always are keys), the sort is stable: records that compare
    equal under the chosen field come out in the order they went in, in
    particular the records whose numeric key has one given value.  The
    result is then the only rearrangement of the input that is in order
    and keeps tied records in their order: whatever stable algorithm sorts
    the array, it returns this list. *)
Theorem sortProcs_stable (procs : list Process) (f : SortField) (asc : bool) :
  Forall (key_defined f) procs ->
  (forall p : Process -> bool,
      tie_class (compareProcs f asc) p ->
      List.filter p (sortProcs procs f asc) = List.filter p procs)
  /\ (forall v,
         List.filter (key_is f v) (sortProcs procs f asc)
         = List.filter (key_is f v) procs)
  /\ (forall out,
         Permutation procs out ->
         StronglySorted (in_order (compareProcs f asc)) out ->
         (forall p : Process -> bool,
             tie_class (compareProcs f asc) p ->
             List.filter p out = List.filter p procs) ->
         out = sortProcs procs f asc).
Proof.
  intros Hk.
  assert (Hst : forall p : Process -> bool,
             tie_class (compareProcs f asc) p ->
             List.filter p (sortProcs procs f asc) = List.filter p procs)
    by (intros p Hp; now apply array_sort_stable).
  split; [exact Hst|]. split.
  - intros v. apply Hst. intros a b. apply key_class_ties.
  - intros out Hperm Hsorted Hties.
    apply (stable_sorted_unique (compareProcs f asc) (has_key f)
             (compareProcs_antisym_any f asc)
             (compareProcs_ties_trans f asc)).
    + apply Forall_forall. intros x Hx. apply has_key_defined.
      rewrite Forall_forall in Hk. apply Hk.
      eapply Permutation_in; [symmetry; exact Hperm | exact Hx].
    + rewrite <- Hperm. apply array_sort_perm.
    + exact Hsorted.
    + now apply sortProcs_strongly_sorted.
    + intros p Hp. now rewrite (Hties p Hp), (Hst p Hp).
Qed.

(** X3.  The result of [sortProcs] is in order: no record sorts after its
    successor, and when the keys of a numeric field are all numbers (or
    the field is status or command) no record sorts after any later one.
    For two numeric keys "in order" is [<=] when ascending and [>=] when
    descending. *)
Theorem sortProcs_sorted (procs : list Process) (f : SortField) (asc : bool) :
  Sorted (in_order (compareProcs f asc)) (sortProcs procs f asc)
  /\ (Forall (key_defined f) procs ->
      StronglySorted (in_order (compareProcs f asc)) (sortProcs procs f asc))
  /\ (forall a b x y,
         num_key f a = Some (Fin x) -> num_key f b = Some (Fin y) ->
         (in_order (compareProcs f asc) a b
          <-> if asc then (x <= y)%Q else (y <= x)%Q)).
Proof.
  assert (Hs : Sorted (in_order (compareProcs f asc)) (sortProcs procs f asc))
    by (apply array_sort_Sorted; apply compareProcs_antisym_any).
  split; [exact Hs|]. split.
  - intros Hk. apply Sorted_strong_on; [|exact Hs].
    intros a b c Ha Hb Hc.
    rewrite Forall_forall in Hk.
    apply in_order_trans; apply Hk;
      unfold sortProcs in *; eapply array_sort_In; eassumption.
  - intros a b x y Ha Hb.
    destruct (in_order_numeric f a b x y Ha Hb) as [H1 H2].
    now destruct asc.
Qed.

(** X4.  When the sort keys are numbers, sorting a list that [sortProcs]
    has sorted, by the same field in the same direction, changes nothing:
    a refresh cycle that gets the same snapshot shows the same order. *)
Theorem sortProcs_idempotent (procs : list Process) (f : SortField)
        (asc : bool) :
  Forall (key_defined f) procs ->
  sortProcs (sortProcs procs f asc) f asc = sortProcs procs f asc.
Proof.
  intros Hk. unfold sortProcs. apply array_sort_fixed.
  apply StronglySorted_Sorted. now apply sortProcs_strongly_sorted.
Qed.
End SortProcsTheorems.

Lemma sortProcs_sorted_witness :
  Forall (key_defined F_cpu) cpu_records
  /\ StronglySorted (in_order (compareProcs F_cpu false))
                    (sortProcs cpu_records F_cpu false).
Proof.
  assert (H : Forall (key_defined F_cpu) cpu_records)
    by (repeat constructor; discriminate).
  split; [exact H|].
  exact (proj1 (proj2 (@sortProcs_sorted asciiHost asciiHostLaws
                         cpu_records F_cpu false)) H).
Defined.

Lemma sortProcs_idempotent_witness :
  Forall (key_defined F_cpu) mixed_records
  /\ sortProcs (sortProcs mixed_records F_cpu true) F_cpu true
     = sortProcs mixed_records F_cpu true.
Proof.
  assert (H : Forall (key_defined F_cpu) mixed_records)
    by (repeat constructor; discriminate).
  split; [exact H|].
  exact (@sortProcs_idempotent asciiHost asciiHostLaws mixed_records F_cpu
           true H).
Defined.

Lemma sortProcs_stable_witness :
  Forall (key_defined F_cpu) mixed_records
  /\ List.map pid (List.filter (key_is F_cpu 5)
                               (sortProcs mixed_records F_cpu false))
     = [Fin 1; Fin 3].
Proof.
  assert (H : Forall (key_defined F_cpu) mixed_records)
    by (repeat constructor; discriminate).
  split; [exact H|].
  rewrite (proj1 (proj2 (@sortProcs_stable asciiHost asciiHostLaws
                           mixed_records F_cpu false H)) 5%Q).
  reflexivity.
Defined.

(* ------------------------------------------------------------------ *)
(** * Further properties: the line parser and the snapshot *)

Lemma exec_sound (line : jsstring) (m : list jsstring) :
  exec PS_REGEX line = Some m ->
  exists l,
    wf l /\ line = render l
    /\ m = [line; pidS l; ppidS l; cpuS l; memS l; statS l; ttyS l; commandS l].
Proof.
  unfold exec. destruct (match_terms PS_REGEX [] line) as [caps|] eqn:Hm;
    [|discriminate].
  intros H. inversion H; subst m. clear H.
  destruct (match_terms_sound _ _ _ _ Hm) as (toks & HF & Hline & Hcaps).
  unfold PS_REGEX in HF.
  repeat match goal with
         | H : Forall2 _ (_ :: _) ?x |- _ =>
             let tok := fresh "tok" in
             let toks' := fresh "toks" in
             let Hf := fresh "Hf" in
             inversion H as [|? tok ? toks' Hf ?]; subst; clear H
         end.
  match goal with H : Forall2 _ [] _ |- _ => inversion H; subst; clear H end.
  eexists (mkPsLine _ _ _ _ _ _ _ _ _ _ _ _ _ _ _ _ _ _ _ _ _ _ _ _).
  split; [|split; [reflexivity|]].
  - unfold wf, PS_REGEX, tokens; simpl. repeat constructor; assumption.
  - reflexivity.
Qed.

Lemma kept_dec (status terminal : jsstring) :
  kept status terminal \/ ~ kept status terminal.
Proof.
  destruct (policy_spec status terminal) as [H1 H2].
  destruct (negb (str_eqb terminal (js "??"))
            && negb (code_is (charCodeAt status 0) 83)
            && negb (code_is (charCodeAt status 0) 115)
            && negb (code_is (charCodeAt status 0) 73)) eqn:E.
  - right. intros Hk. apply H2 in Hk. discriminate.
  - left. now apply H1.
Qed.

Lemma parseProcessLine_returns (line : jsstring) (p : Process) :
  parseProcessLine line = Some p ->
  (exists l, wf l /\ line = render l /\ p = record_of l)
  /\ kept (stat p) (tty p)
  /\ (exists n m, (0 <= n)%Z /\ (0 <= m)%Z
                  /\ pid p = num_of_Z n /\ ppid p = num_of_Z m)
  /\ stat p <> [] /\ forallb (fun c => negb (is_space c)) (stat p) = true
  /\ tty p <> [] /\ forallb (fun c => negb (is_space c)) (tty p) = true
  /\ command p <> []
  /\ forallb (fun c => negb (is_line_terminator c)) (command p) = true.
Proof.
  unfold parseProcessLine.
  destruct (Nat.eqb (List.length line) 0); [discriminate|].
  destruct (exec PS_REGEX line) as [m|] eqn:He; [|discriminate].
  destruct (exec_sound line m He) as (l & Hwf & Hline & Hm). subst m.
  unfold group. cbn [nth].
  pose proof (policy_spec (statS l) (ttyS l)) as Hp.
  destruct (negb (str_eqb (ttyS l) (js "??"))
            && negb (code_is (charCodeAt (statS l) 0) 83)
            && negb (code_is (charCodeAt (statS l) 0) 115)
            && negb (code_is (charCodeAt (statS l) 0) 73)); [discriminate|].
  intros H. inversion H; subst p. clear H. cbn [stat tty pid ppid command].
  pose proof Hwf as Hfits. unfold wf, PS_REGEX, tokens in Hfits.
  split_fits Hfits.
  unfold fits in Hfit0, Hfit2, Hfit8, Hfit10, Hfit22.
  cbn [term_class term_quant in_class] in Hfit0, Hfit2, Hfit8, Hfit10, Hfit22.
  apply andb_true_iff in Hfit0 as [Hp1 Hp2].
  apply andb_true_iff in Hfit2 as [Hq1 Hq2].
  apply andb_true_iff in Hfit8 as [Hs1 Hs2].
  apply andb_true_iff in Hfit10 as [Ht1 Ht2].
  apply andb_true_iff in Hfit22 as [Hc1 Hc2].
  split; [exists l; repeat split; assumption|].
  split; [now apply Hp|].
  split.
  { exists (digits_val (pidS l)), (digits_val (ppidS l)).
    repeat split; try apply digits_val_nonneg;
      apply ToNumber_digits; auto.
    - now destruct (pidS l).
    - now destruct (ppidS l). }
  repeat split; auto.
  - now destruct (statS l).
  - now destruct (ttyS l).
  - now destruct (commandS l).
Qed.

(** X5.  Whatever the line, a record that [parseProcessLine] returns is
    the record of a decomposition of that line along the grammar, and so:
    the background policy holds of it, pid and parent pid are integers that
    are not negative (never NaN), status and terminal are not empty and
    hold no blank, the command is not empty and holds no line terminator. *)
Theorem parseProcessLine_sound (line : jsstring) (p : Process) :
  parseProcessLine line = Some p ->
  (exists l, wf l /\ line = render l /\ p = record_of l)
  /\ kept (stat p) (tty p)
  /\ (exists n m, (0 <= n)%Z /\ (0 <= m)%Z
                  /\ pid p = num_of_Z n /\ ppid p = num_of_Z m)
  /\ stat p <> [] /\ forallb (fun c => negb (is_space c)) (stat p) = true
  /\ tty p <> [] /\ forallb (fun c => negb (is_space c)) (tty p) = true
  /\ command p <> []
  /\ forallb (fun c => negb (is_line_terminator c)) (command p) = true.
Proof. exact (parseProcessLine_returns line p). Qed.

Lemma parseProcessLine_sound_witness :
  parseProcessLine (render syslogd_line) = Some (record_of syslogd_line)
  /\ kept (js "Ss") (js "??").
Proof.
  assert (H : parseProcessLine (render syslogd_line)
              = Some (record_of syslogd_line)) by reflexivity.
  split; [exact H|].
  exact (proj1 (proj2 (parseProcessLine_sound _ _ H))).
Defined.

(** X6.  The parser reads the fields and nothing else: two lines of the
    grammar with the same seven fields give the same result, whatever
    their blanks (how many, which ones, leading or not) and their start
    times. *)
Theorem parseProcessLine_blank_insensitive (l l' : PsLine) :
  wf l -> wf l' -> command_starts l ->
  pidS l = pidS l' -> ppidS l = ppidS l' -> cpuS l = cpuS l' ->
  memS l = memS l' -> statS l = statS l' -> ttyS l = ttyS l' ->
  commandS l = commandS l' ->
  parseProcessLine (render l) = parseProcessLine (render l').
Proof.
  intros Hwf Hwf' Hs E1 E2 E3 E4 E5 E6 E7.
  destruct (parse_render l Hwf) as (c & Hc & Hsome & Hnone).
  destruct (parse_render l' Hwf') as (c' & Hc' & Hsome' & Hnone').
  assert (Hs' : command_starts l') by (unfold command_starts in *; now rewrite <- E7).
  destruct (kept_dec (statS l) (ttyS l)) as [Hk|Hk].
  - rewrite (Hsome Hk). rewrite E5, E6 in Hk. rewrite (Hsome' Hk).
    rewrite (Hc Hs), (Hc' Hs'). now rewrite E1, E2, E3, E4, E5, E6, E7.
  - rewrite (Hnone Hk). rewrite E5, E6 in Hk. now rewrite (Hnone' Hk).
Qed.

Lemma parseProcessLine_blank_insensitive_witness :
  wf syslogd_line /\ wf syslogd_line_respaced
  /\ command_starts syslogd_line
  /\ parseProcessLine (render syslogd_line)
     = parseProcessLine (render syslogd_line_respaced).
Proof.
  assert (H1 : wf syslogd_line)
    by (unfold wf, PS_REGEX, syslogd_line, tokens; simpl; repeat constructor).
  assert (H2 : wf syslogd_line_respaced)
    by (unfold wf, PS_REGEX, syslogd_line_respaced, tokens; simpl;
        repeat constructor).
  assert (H3 : command_starts syslogd_line) by reflexivity.
  split; [exact H1|]. split; [exact H2|]. split; [exact H3|].
  exact (parseProcessLine_blank_insensitive syslogd_line syslogd_line_respaced
           H1 H2 H3 eq_refl eq_refl eq_refl eq_refl eq_refl eq_refl eq_refl).
Defined.

Lemma collect_processes_In (self : number) (lines : list jsstring) (p : Process) :
  In p (collect_processes self lines)
  <-> exists line, In line lines /\ parseProcessLine line = Some p
                   /\ num_strict_neq (pid p) self = true.
Proof.
  induction lines as [|line lines IH]; simpl.
  - split; [contradiction | intros (? & [] & _)].
  - destruct (parseProcessLine line) as [q|] eqn:Hq.
    + destruct (num_strict_neq (pid q) self) eqn:Hn; simpl; rewrite IH; split.
      * intros [->|(x & Hx & H)]; [exists line; auto | exists x; auto].
      * intros (x & [->|Hx] & Hp & Hs); [left; congruence | right; eauto].
      * intros (x & Hx & H). exists x; auto.
      * intros (x & [->|Hx] & Hp & Hs); [|eauto].
        rewrite Hq in Hp. inversion Hp; subst. congruence.
    + rewrite IH. split.
      * intros (x & Hx & H). exists x; auto.
      * intros (x & [->|Hx] & Hp & Hs); [congruence|eauto].
Qed.

(** X7.  When [ps] answers, [getProcesses] returns the records of the
    lines after the first one that parse and whose pid is not the pid of
    the program itself, and only those: the first line is never read as a
    process, the program never lists itself, and every record satisfies
    the background policy. *)
Theorem getProcesses_snapshot (w : World) (text : jsstring) :
  ps_output w = Some text ->
  exists procs,
    getProcesses w = Some procs
    /\ (forall p,
           In p procs
           <-> exists line, In line (tl (split_lines text))
                            /\ parseProcessLine line = Some p
                            /\ num_strict_neq (pid p) (selfPid w) = true)
    /\ Forall (fun p => pid p <> selfPid w /\ kept (stat p) (tty p)) procs
    /\ (tl (split_lines text) = [] -> procs = []).
Proof.
  intros Hw. unfold getProcesses. rewrite Hw. eexists. split; [reflexivity|].
  split; [intros p; apply collect_processes_In|]. split.
  - apply Forall_forall. intros p Hp.
    apply collect_processes_In in Hp as (line & _ & Hparse & Hn).
    split.
    + intros E. rewrite E in Hn. destruct (selfPid w) as [|q]; simpl in Hn;
        [|rewrite Qeq_bool_refl in Hn]; try discriminate.
      destruct (parseProcessLine_returns _ _ Hparse)
        as (_ & _ & (n & m & _ & _ & Hpid & _) & _).
      rewrite E in Hpid. discriminate.
    + exact (proj1 (proj2 (parseProcessLine_returns _ _ Hparse))).
  - intros E. now rewrite E.
Qed.

Lemma getProcesses_snapshot_witness :
  ps_output self_world = Some self_text
  /\ option_map (List.map pid) (getProcesses self_world) = Some [Fin 123].
Proof.
  split; [reflexivity|].
  destruct (getProcesses_snapshot self_world self_text eq_refl)
    as (procs & H & _).
  rewrite H. vm_compute in H. inversion H. reflexivity.
Defined.

(* ------------------------------------------------------------------ *)
(** * Further properties: cells and colours *)

Lemma str_length_app (a b : jsstring) :
  str_length (a ++ b) = (str_length a + str_length b)%Z.
Proof. unfold str_length. rewrite length_app. lia. Qed.

Lemma slice_0_length (s : jsstring) (e : Z) :
  (0 <= e <= str_length s)%Z -> str_length (slice_0 s e) = e.
Proof.
  intros He. unfold slice_0, str_length in *.
  destruct (Z.ltb_spec e 0); [lia|].
  rewrite length_firstn. lia.
Qed.

Lemma slice_0_prefix (s : jsstring) (e : Z) :
  exists rest, s = slice_0 s e ++ rest.
Proof.
  unfold slice_0. eexists. symmetry. apply firstn_skipn.
Qed.

Lemma pad_shape (s : jsstring) (n : Z) :
  (1 <= n)%Z ->
  str_length (pad s n) = n /\ str_length (rpad s n) = n
  /\ ((str_length s <= n)%Z ->
      pad s n = s ++ repeat 32%N (Z.to_nat (n - str_length s))
      /\ rpad s n = repeat 32%N (Z.to_nat (n - str_length s)) ++ s)
  /\ ((n < str_length s)%Z ->
      pad s n = firstn (Z.to_nat (n - 1)) s ++ js "~"
      /\ rpad s n = pad s n).
Proof.
  intros Hn. unfold pad, rpad, padEnd, padStart.
  rewrite Z.gtb_ltb. destruct (Z.ltb_spec n (str_length s)) as [Hlt|Hge].
  - rewrite str_length_app, slice_0_length by lia.
    change (str_length (js "~")) with 1%Z.
    split; [lia|]. split; [lia|].
    split; [lia|]. intros _. split; [|reflexivity].
    unfold slice_0. destruct (Z.ltb_spec (n - 1) 0); [lia|].
    now rewrite Z.min_l by lia.
  - rewrite !str_length_app. unfold str_length at 2 4.
    rewrite repeat_length.
    split; [lia|]. split; [lia|]. split; [auto|lia].
Qed.

(** X8.  For a width of at least one, [pad] and [rpad] return a string of
    exactly that width: the string itself with spaces after it ([pad]) or
    before it ([rpad]) when it fits, and otherwise its first width-1
    characters and a tilde. *)
Theorem pad_width (s : jsstring) (n : Z) :
  (1 <= n)%Z ->
  str_length (pad s n) = n /\ str_length (rpad s n) = n
  /\ ((str_length s <= n)%Z ->
      pad s n = s ++ repeat 32%N (Z.to_nat (n - str_length s))
      /\ rpad s n = repeat 32%N (Z.to_nat (n - str_length s)) ++ s)
  /\ ((n < str_length s)%Z ->
      pad s n = firstn (Z.to_nat (n - 1)) s ++ js "~"
      /\ rpad s n = pad s n).
Proof. exact (pad_shape s n). Qed.

Lemma pad_width_witness :
  (1 <= 5)%Z
  /\ pad (js "very long string") 5 = js "very~"
  /\ rpad (js "42") 7 = js "     42".
Proof.
  assert (H : (1 <= 5)%Z) by lia.
  split; [exact H|].
  destruct (pad_width (js "very long string") 5 H) as (_ & _ & _ & Hlong).
  split; [|reflexivity].
  rewrite (proj1 (Hlong ltac:(vm_compute; reflexivity))). reflexivity.
Defined.

(** The tests of [pad] and [rpad]. *)
Example pad_tests :
  pad (js "foo") 10 = js "foo       "
  /\ pad (js "hello") 5 = js "hello"
  /\ rpad (js "very long string") 5 = js "very~"
  /\ rpad (js "hello") 5 = js "hello".
Proof. repeat split. Qed.

(** X9.  Padding a padded string to the same width again changes nothing
    (for a width of at least one). *)
Theorem pad_idempotent (s : jsstring) (n : Z) :
  (1 <= n)%Z ->
  pad (pad s n) n = pad s n /\ rpad (rpad s n) n = rpad s n.
Proof.
  intros Hn. destruct (pad_shape s n Hn) as (H1 & H2 & _).
  destruct (pad_shape (pad s n) n Hn) as (_ & _ & Hfit & _).
  destruct (pad_shape (rpad s n) n Hn) as (_ & _ & Hfit' & _).
  rewrite (proj1 (Hfit ltac:(lia))), (proj2 (Hfit' ltac:(lia))).
  rewrite H1, H2, Z.sub_diag. simpl. now rewrite app_nil_r.
Qed.

Lemma pad_idempotent_witness :
  (1 <= 7)%Z /\ pad (pad (js "launchd") 7) 7 = pad (js "launchd") 7.
Proof.
  assert (H : (1 <= 7)%Z) by lia.
  split; [exact H|]. exact (proj1 (pad_idempotent (js "launchd") 7 H)).
Defined.

(** X10.  Below a width of one the cut does not give the width: a string
    longer than the width keeps at least its tilde. *)
Theorem pad_narrow (s : jsstring) (n : Z) :
  (n <= 0)%Z -> s <> [] ->
  pad s n = slice_0 s (n - 1) ++ js "~"
  /\ (str_length (pad s n) >= 1)%Z
  /\ pad s 0 = removelast s ++ js "~".
Proof.
  intros Hn Hs.
  assert (Hl : (1 <= str_length s)%Z).
  { unfold str_length. destruct s; [congruence|]. simpl List.length. lia. }
  assert (H : forall k, (k <= 0)%Z -> pad s k = slice_0 s (k - 1) ++ js "~").
  { intros k Hk. unfold pad. rewrite Z.gtb_ltb.
    destruct (Z.ltb_spec k (str_length s)); [reflexivity|lia]. }
  split; [now apply H|]. split.
  - rewrite (H n Hn), str_length_app.
    unfold str_length at 1. change (str_length (js "~")) with 1%Z. lia.
  - rewrite (H 0%Z) by lia. f_equal.
    unfold slice_0. change (0 - 1 <? 0)%Z with true. cbv iota.
    rewrite Z.max_l by lia.
    rewrite removelast_firstn_len. f_equal. unfold str_length in *. lia.
Qed.

Lemma pad_narrow_witness :
  (0 <= 0)%Z /\ js "ab" <> [] /\ pad (js "ab") 0 = js "a~".
Proof.
  assert (H : (0 <= 0)%Z) by lia.
  assert (Hs : js "ab" <> []) by discriminate.
  split; [exact H|]. split; [exact Hs|].
  exact (proj2 (proj2 (pad_narrow (js "ab") 0 H Hs))).
Defined.

Lemma num_gt_true (x q : Q) : num_gt (Fin x) q = true <-> (q < x)%Q.
Proof.
  simpl. rewrite negb_true_iff. split.
  - intros H. apply Qnot_le_lt. intros Hle.
    apply Qle_bool_iff in Hle. congruence.
  - intros H. destruct (Qle_bool x q) eqn:E; [|reflexivity].
    apply Qle_bool_iff in E. lra.
Qed.

Lemma num_gt_false (x q : Q) : num_gt (Fin x) q = false <-> (x <= q)%Q.
Proof.
  simpl. rewrite negb_false_iff. apply Qle_bool_iff.
Qed.

Ltac load_cases :=
  repeat match goal with
         | |- context [num_gt (Fin ?x) ?q] =>
             let E := fresh "E" in
             destruct (num_gt (Fin x) q) eqn:E;
             [apply num_gt_true in E | apply num_gt_false in E]
         end.

(** X11.  The colours of the load columns never calm down as the load
    grows: from green over yellow and orange to red, a larger share never
    gets a quieter colour than a smaller one.  The memory scale is the
    stricter one: no share is louder as cpu than as memory.  NaN is green. *)
Theorem load_colours_monotone (x y : Q) :
  (x <= y)%Q ->
  (severity (cpuColor (Fin x)) <= severity (cpuColor (Fin y)))%Z
  /\ (severity (memColor (Fin x)) <= severity (memColor (Fin y)))%Z
  /\ (severity (cpuColor (Fin x)) <= severity (memColor (Fin x)))%Z
  /\ cpuColor NaN = c.green /\ memColor NaN = c.green.
Proof.
  intros Hxy. unfold cpuColor, memColor.
  repeat split; load_cases;
    try (vm_compute; discriminate); try reflexivity; exfalso; lra.
Qed.

Lemma load_colours_monotone_witness :
  (6 <= 21)%Q
  /\ (severity (cpuColor (Fin 6)) <= severity (cpuColor (Fin 21)))%Z.
Proof.
  assert (H : (6 <= 21)%Q) by (vm_compute; discriminate).
  split; [exact H|]. exact (proj1 (load_colours_monotone 6 21 H)).
Defined.

(** The tests of the colours. *)
Example colour_tests :
  List.map cpuColor [Fin 51; Fin 21; Fin 6; Fin 5; Fin 0]
  = [c.red; c.orange; c.yellow; c.green; c.green]
  /\ List.map memColor [Fin 31; Fin 11; Fin 4; Fin 3; Fin 0]
     = [c.red; c.orange; c.yellow; c.green; c.green]
  /\ List.map statColor [js "R+"; js "T"; js "Z"; js "D"; js "Ss"]
     = [c.green; c.yellow; c.red; c.orange; c.dim].
Proof. repeat split. Qed.

Example toFixed_examples :
  List.map (fun x => toFixed x 1)
           [Fin 2.3; Fin 0; Fin 12.34; Fin 0.05; Fin 100; Fin (-2.5); NaN]
  = [js "2.3"; js "0.0"; js "12.3"; js "0.1"; js "100.0"; js "-2.5"; js "NaN"].
Proof. reflexivity. Qed.

(* ------------------------------------------------------------------ *)
(** * Further properties: the rows of the viewport *)

Lemma ensureVisible_scroll_range (st : State) :
  (0 <= scrollOffset (ensureVisible st)
   <= Z.max 0 (len st - viewportH st))%Z.
Proof.
  destruct st as [sb sa disp sel off flt fing cf rf ds h ct cv].
  unfold ensureVisible, clampScroll, len, set_scrollOffset. cbn.
  cases_if; to_Z_props; lia.
Qed.

Lemma at_index_Some (l : list Process) (i : Z) :
  (0 <= i < Z.of_nat (List.length l))%Z -> exists p, at_index l i = Some p.
Proof.
  intros Hi. unfold at_index. destruct (Z.ltb_spec i 0); [lia|].
  destruct (nth_error l (Z.to_nat i)) as [p|] eqn:E; [eauto|].
  apply nth_error_None in E. lia.
Qed.

Lemma at_index_None (l : list Process) (i : Z) :
  (Z.of_nat (List.length l) <= i)%Z -> at_index l i = None.
Proof.
  intros Hi. unfold at_index. destruct (Z.ltb_spec i 0); [reflexivity|].
  apply nth_error_None. lia.
Qed.

Lemma paintCells_cols (p : Process) (sel : bool) (old : list Cell) :
  List.length old = List.length cols ->
  paintCells p sel cols old
  = Some (List.map (fun col =>
                      mkCell (cellText col p)
                             (if sel then js "#ffffff" else Column.color col p)
                             sel) cols).
Proof.
  intros H.
  do 7 (destruct old as [|? old]; try discriminate). reflexivity.
Qed.

Lemma paintRow_shows (st : State) (vc vi : Z) (old : RowHandle) :
  (0 <= scrollOffset st)%Z -> (0 <= vi)%Z ->
  (vi < vc <-> scrollOffset st + vi < len st)%Z ->
  List.length (cells old) = List.length cols ->
  exists row,
    paintRow st vc vi old = Some row /\ row_shows st vi row
    /\ List.length (cells row) = List.length cols.
Proof.
  intros Hs Hvi Hvc Hold. unfold paintRow, row_shows.
  rewrite Z.geb_leb. destruct (Z.leb_spec vc vi) as [Hge|Hlt].
  - eexists. split; [reflexivity|].
    rewrite at_index_None by (unfold len in *; lia). now split.
  - destruct (at_index_Some (displayed st) (scrollOffset st + vi)) as [p Hp];
      [unfold len in *; lia|].
    rewrite Hp, (paintCells_cols _ _ _ Hold).
    eexists. split; [reflexivity|]. cbn.
    split; [repeat split|reflexivity].
Qed.

Lemma paintLoop_shows (st : State) (vc : Z) (n : nat) :
  (0 <= scrollOffset st)%Z ->
  forall (vi : Z) (rowPool : list RowHandle),
    (0 <= vi)%Z -> (n <= List.length rowPool)%nat -> pool_ok rowPool ->
    (forall j, (vi <= j < vi + Z.of_nat n)%Z ->
               (j < vc <-> scrollOffset st + j < len st)%Z) ->
    exists rows,
      paintLoop st vc n vi rowPool = Some rows
      /\ pool_ok rows /\ List.length rows = List.length rowPool
      /\ (forall j, (j < n)%nat ->
                    exists row, nth_error rows j = Some row
                                /\ row_shows st (vi + Z.of_nat j) row)
      /\ (forall j, (n <= j)%nat -> nth_error rows j = nth_error rowPool j).
Proof.
  intros Hs. induction n as [|n IH]; intros vi rowPool Hvi Hlen Hok Hvc.
  - exists rowPool. simpl. repeat split; auto. intros j Hj. lia.
  - destruct rowPool as [|old rest]; [simpl in Hlen; lia|].
    inversion Hok as [|? ? Hold Hrest]; subst.
    destruct (paintRow_shows st vc vi old Hs Hvi) as (row & Hrow & Hshow & Hc);
      [apply Hvc; lia | exact Hold |].
    destruct (IH (vi + 1)%Z rest) as (rows & Hrows & Hok' & Hl & Hin & Hout);
      [lia | simpl in Hlen; lia | exact Hrest | intros j Hj; apply Hvc; lia |].
    exists (row :: rows). simpl. rewrite Hrow, Hrows.
    split; [reflexivity|]. split; [constructor; assumption|].
    split; [simpl; now rewrite Hl|]. split.
    + intros [|j] Hj.
      * exists row. rewrite Z.add_0_r. now split.
      * destruct (Hin j) as (r & Hr & Hsh); [lia|].
        exists r. split; [exact Hr|].
        replace (vi + Z.of_nat (S j))%Z with (vi + 1 + Z.of_nat j)%Z by lia.
        exact Hsh.
    + intros [|j] Hj; [lia|]. simpl. apply Hout. lia.
Qed.

Lemma ensurePoolSize_ok (rowPool : list RowHandle) (n : Z) :
  pool_ok rowPool ->
  pool_ok (ensurePoolSize rowPool n)
  /\ List.length (ensurePoolSize rowPool n)
     = Nat.max (List.length rowPool) (Z.to_nat n).
Proof.
  intros Hok. unfold ensurePoolSize, pool_ok. split.
  - apply Forall_app. split; [exact Hok|].
    apply Forall_forall. intros r Hr. apply repeat_spec in Hr. now subst.
  - rewrite length_app, repeat_length. lia.
Qed.

Lemma renderRows_pool_rows (st : State) (rowPool : list RowHandle) :
  pool_ok rowPool ->
  exists rows,
    renderRows_pool st rowPool = (ensureVisible st, Some rows)
    /\ pool_ok rows
    /\ List.length rows
       = Nat.max (List.length rowPool) (Z.to_nat (viewportH st))
    /\ (forall vi, (0 <= vi < viewportH st)%Z ->
                   exists row, nth_error rows (Z.to_nat vi) = Some row
                               /\ row_shows (ensureVisible st) vi row).
Proof.
  intros Hok. unfold renderRows_pool.
  destruct (ensureVisible_frame st) as (Hd & Hh & _).
  pose proof (ensureVisible_scroll_range st) as Hs.
  destruct (ensurePoolSize_ok rowPool (viewportH (ensureVisible st)) Hok)
    as [Hok' Hlen'].
  set (st' := ensureVisible st) in *.
  destruct (paintLoop_shows st'
              (Z.min (viewportH st') (len st' - scrollOffset st'))
              (Z.to_nat (viewportH st')) (proj1 Hs)
              0%Z (ensurePoolSize rowPool (viewportH st')))
    as (rows & Hrows & Hokr & Hl & Hin & _);
    [lia | rewrite Hlen'; lia | exact Hok' | intros j Hj; lia |].
  exists rows. rewrite Hrows. split; [reflexivity|].
  split; [exact Hokr|]. split; [rewrite Hl, Hlen', Hh; reflexivity|].
  intros vi Hvi. rewrite <- Hh in Hvi.
  destruct (Hin (Z.to_nat vi)) as (row & Hr & Hsh); [lia|].
  exists row. split; [exact Hr|].
  now rewrite Z2Nat.id in Hsh by lia.
Qed.

(** X12.  [renderRows] never reads a record that is not there, whatever
    the state it starts from: after [ensureVisible] the loop over the rows
    completes, and the row [vi] of the viewport shows the record at
    [scrollOffset + vi], fitted into its cells, when the list reaches that
    far, and is hidden otherwise.  The pool keeps a cell for each column in
    every row and never shrinks. *)
Theorem renderRows_pool_paints (st : State) (rowPool : list RowHandle) :
  pool_ok rowPool ->
  exists rows,
    renderRows_pool st rowPool = (ensureVisible st, Some rows)
    /\ pool_ok rows
    /\ List.length rows
       = Nat.max (List.length rowPool) (Z.to_nat (viewportH st))
    /\ (forall vi, (0 <= vi < viewportH st)%Z ->
                   exists row, nth_error rows (Z.to_nat vi) = Some row
                               /\ row_shows (ensureVisible st) vi row).
Proof. exact (renderRows_pool_rows st rowPool). Qed.

Lemma renderRows_pool_paints_witness :
  pool_ok []
  /\ option_map (List.map visible) (snd (renderRows_pool three_in_two []))
     = Some [true; true].
Proof.
  assert (H : pool_ok []) by constructor.
  split; [exact H|].
  destruct (renderRows_pool_paints three_in_two [] H) as (rows & Hr & _).
  rewrite Hr. vm_compute in Hr. inversion Hr. reflexivity.
Defined.

(** X13.  When the selection is inside the list and the viewport has at
    least one row, [renderRows] highlights exactly one row of the
    viewport: the row of the selected record is shown on the highlight
    colour, in bold white, with that record in its cells; every other row
    that is shown is on a stripe colour and not bold. *)
Theorem renderRows_highlights_selection (st : State)
        (rowPool : list RowHandle) :
  pool_ok rowPool -> (1 <= viewportH st)%Z ->
  (0 <= selected st < len st)%Z ->
  exists rows,
    snd (renderRows_pool st rowPool) = Some rows
    /\ (0 <= selected st - scrollOffset (ensureVisible st) < viewportH st)%Z
    /\ (exists row p,
           nth_error rows
             (Z.to_nat (selected st - scrollOffset (ensureVisible st)))
           = Some row
           /\ at_index (displayed st) (selected st) = Some p
           /\ visible row = true /\ backgroundColor row = c.bgHl
           /\ List.map content (cells row)
              = List.map (fun col => cellText col p) cols
           /\ Forall (fun cell => attributes cell = true
                                  /\ fg cell = js "#ffffff") (cells row))
    /\ (forall vi row,
           (0 <= vi < viewportH st)%Z ->
           vi <> (selected st - scrollOffset (ensureVisible st))%Z ->
           nth_error rows (Z.to_nat vi) = Some row ->
           visible row = true ->
           backgroundColor row <> c.bgHl
           /\ Forall (fun cell => attributes cell = false) (cells row)).
Proof.
  intros Hok Hh Hsel.
  destruct (renderRows_pool_rows st rowPool Hok) as (rows & Hr & _ & _ & Hrows).
  exists rows. rewrite Hr. split; [reflexivity|].
  destruct (ensureVisible_frame st) as (Hd & Hvh & Hs & _).
  assert (Hinv : view_inv (ensureVisible st))
    by (apply ensureVisible_inv; lia).
  destruct Hinv as (_ & _ & Hwin). rewrite Hs, Hvh in Hwin.
  set (st' := ensureVisible st) in *.
  split; [lia|]. split.
  - destruct (Hrows (selected st - scrollOffset st')%Z) as (row & Hrow & Hsh);
      [lia|].
    unfold row_shows in Hsh.
    replace (scrollOffset st' + (selected st - scrollOffset st'))%Z
      with (selected st) in Hsh by lia.
    rewrite Hd, Hs in Hsh.
    destruct (at_index_Some (displayed st) (selected st)) as [p Hp];
      [unfold len in Hsel; lia|].
    rewrite Hp, Z.eqb_refl in Hsh. destruct Hsh as (Hv & Hbg & Hcells).
    exists row, p. rewrite Hcells.
    repeat split; auto; try (repeat constructor; fail).
  - intros vi row Hvi Hne Hrow Hv.
    destruct (Hrows vi Hvi) as (row' & Hrow' & Hsh).
    rewrite Hrow in Hrow'. inversion Hrow'; subst row'.
    unfold row_shows in Hsh.
    destruct (at_index (displayed st') (scrollOffset st' + vi)) as [p|];
      [|congruence].
    rewrite Hs in Hsh.
    destruct (Z.eqb_spec (scrollOffset st' + vi) (selected st)) as [E|_];
      [lia|].
    destruct Hsh as (_ & Hbg & Hcells). rewrite Hbg, Hcells. split.
    + destruct (Z.rem (scrollOffset st' + vi) 2 =? 0)%Z; discriminate.
    + repeat constructor.
Qed.

Lemma renderRows_highlights_selection_witness :
  pool_ok [] /\ (1 <= viewportH three_in_two)%Z
  /\ (0 <= selected three_in_two < len three_in_two)%Z
  /\ option_map (List.map backgroundColor)
                (snd (renderRows_pool three_in_two []))
     = Some [c.bgAlt; c.bgHl].
Proof.
  assert (H : pool_ok []) by constructor.
  assert (Hh : (1 <= viewportH three_in_two)%Z) by (vm_compute; discriminate).
  assert (Hs : (0 <= selected three_in_two < len three_in_two)%Z)
    by (vm_compute; split; [discriminate|reflexivity]).
  split; [exact H|]. split; [exact Hh|]. split; [exact Hs|].
  destruct (renderRows_highlights_selection three_in_two [] H Hh Hs)
    as (rows & Hr & _).
  rewrite Hr. vm_compute in Hr. inversion Hr. reflexivity.
Defined.

(** X14.  Every row that [renderRows] shows has cells of the widths of the
    columns: seven characters each for pid, parent pid, cpu and memory, ten
    for the status label, and the command as it is. *)
Theorem renderRows_cell_widths (st : State) (rowPool : list RowHandle)
        (rows : list RowHandle) (vi : Z) (row : RowHandle) :
  pool_ok rowPool ->
  snd (renderRows_pool st rowPool) = Some rows ->
  (0 <= vi < viewportH st)%Z ->
  nth_error rows (Z.to_nat vi) = Some row -> visible row = true ->
  exists p,
    at_index (displayed st) (scrollOffset (ensureVisible st) + vi) = Some p
    /\ List.map (fun cell => str_length (content cell)) (cells row)
       = [7; 7; 7; 7; 10; str_length (command p)]%Z.
Proof.
  intros Hok Hr Hvi Hrow Hv.
  destruct (renderRows_pool_rows st rowPool Hok) as (rows' & Hr' & _ & _ & Hrows).
  rewrite Hr' in Hr. inversion Hr; subst rows'. clear Hr.
  destruct (Hrows vi Hvi) as (row' & Hrow' & Hsh).
  rewrite Hrow in Hrow'. inversion Hrow'; subst row'.
  destruct (ensureVisible_frame st) as (Hd & _).
  unfold row_shows in Hsh. rewrite Hd in Hsh.
  destruct (at_index (displayed st) (scrollOffset (ensureVisible st) + vi))
    as [p|]; [|congruence].
  exists p. split; [reflexivity|].
  destruct Hsh as (_ & _ & Hcells). rewrite Hcells.
  unfold cols, cellText. cbn [List.map Column.w Column.right Column.val content].
  change (7 >? 0)%Z with true. change (10 >? 0)%Z with true.
  change (0 >? 0)%Z with false. cbv iota.
  repeat f_equal;
    first [ exact (proj1 (proj2 (pad_shape _ 7 ltac:(lia))))
          | exact (proj1 (pad_shape _ 10 ltac:(lia))) ].
Qed.

Lemma renderRows_cell_widths_witness :
  pool_ok []
  /\ (0 <= 0 < viewportH three_in_two)%Z
  /\ exists p,
       at_index (displayed three_in_two)
                (scrollOffset (ensureVisible three_in_two) + 0) = Some p
       /\ List.map (fun cell => str_length (content cell))
                   (cells (mkRow true c.bgAlt
                             (List.map (fun col => mkCell
                                          (cellText col (makeProc 2 50))
                                          (Column.color col (makeProc 2 50))
                                          false) cols)))
          = [7; 7; 7; 7; 10; str_length (command p)]%Z.
Proof.
  assert (H : pool_ok []) by constructor.
  assert (Hv : (0 <= 0 < viewportH three_in_two)%Z)
    by (vm_compute; split; [discriminate|reflexivity]).
  split; [exact H|]. split; [exact Hv|].
  exact (renderRows_cell_widths three_in_two []
           (match snd (renderRows_pool three_in_two []) with
            | Some rows => rows | None => [] end)
           0 _ H eq_refl Hv eq_refl eq_refl).
Defined.

(* ------------------------------------------------------------------ *)
(** * Further properties: the handlers *)

Ltac proj_simpl :=
  cbn [sortBy sortAsc displayed selected scrollOffset filter filtering
       confirm refreshing destroyed viewportH confirmText confirmBarVisible
       set_scrollOffset set_selected set_displayed set_sort set_filter
       set_filtering set_refreshing set_destroyed clear_confirm ask_confirm
       fst snd] in *.


Section HandlerFacts.
Context {host : Host}.

(** The shape of a refresh cycle that gets its snapshot. *)
Lemma refresh_success (w : World) (st : State) (procs : list Process) :
  refreshing st = false -> destroyed st = false ->
  getProcesses w = Some procs ->
  refresh w st
  = (set_refreshing false
       (ensureVisible (after_fetch procs (set_refreshing true st))),
     Returned).
Proof.
  intros Hr Hd Hg. unfold refresh. now rewrite Hr, Hd, Hg.
Qed.


Lemma refresh_outcome (w : World) (st : State) :
  snd (refresh w st) = Returned \/ snd (refresh w st) = Thrown.
Proof.
  unfold refresh. destruct (refreshing st || destroyed st); [now left|].
  destruct (getProcesses w); [now left | now right].
Qed.
End HandlerFacts.



Lemma fst_refresh_triple {host : Host} (w : World) (st : State)
      (eff : list Effect) :
  fst (fst (let '(st', o) := refresh w st in (st', eff, o)))
  = fst (refresh w st).
Proof. now destruct (refresh w st). Qed.

Section Invariant.
Context {host : Host}.
Variable height : Z.






End Invariant.

Lemma triple_refresh {host : Host} (w : World) (st : State)
      (eff : list Effect) :
  (let '(st', o) := refresh w st in (st', eff, o))
  = (fst (refresh w st), eff, snd (refresh w st)).
Proof. now destruct (refresh w st). Qed.

Lemma str_eqb_neq (a b : jsstring) : a <> b -> str_eqb a b = false.
Proof.
  intros H. destruct (str_eqb a b) eqn:E; [|reflexivity].
  apply str_eqb_eq in E. contradiction.
Qed.

Section DispatchFacts.
Context {host : Host}.

Lemma dispatch_spawns (w : World) (cf : Confirm) (argv : list jsstring) :
  In (E_spawn argv) (dispatch w cf) ->
  argv = [js "kill";
          match c_action cf with A_kill => js "-9" | _ => js "-15" end;
          String_of_number (c_pid cf)]
  \/ (c_action cf = A_restart /\ spawn_throws w = false
      /\ argv = [js "sh"; js "-c"; c_cmd cf]).
Proof.
  unfold dispatch. destruct (spawn_throws w), (c_action cf); simpl;
    intros H; repeat (destruct H as [H|H]; try discriminate; try contradiction);
    inversion H; auto.
Qed.

(** [keypress] on ["y"] is the two pieces of the handler with nothing in
    between. *)
Lemma keypress_yes_pieces (k : KeyEvent) (w : World) (st : State)
      (c : Confirm) :
  confirm st = Some c -> name k = js "y" ->
  keypress k w st
  = match confirm_yes_begin w st c with
    | Through st' eff o => (st', eff, o)
    | Paused eff =>
        let '(st', eff', o) := confirm_yes_resume w st in
        (st', eff ++ eff', o)
    end.
Proof.
  intros Hc Hk. unfold keypress, is_key, confirm_yes_begin,
                  confirm_yes_resume, dispatch.
  rewrite Hc, Hk. change (str_eqb (js "y") (js "y")) with true. cbv iota.
  destruct (spawn_throws w); [now destruct (refresh w (clear_confirm st))|].
  destruct (c_action c); now destruct (refresh w (clear_confirm st)).
Qed.

Lemma kill_or_shell (w : World) (cf : Confirm) (cmd : jsstring)
      (args : list jsstring) :
  In (E_spawn (cmd :: args)) (dispatch w cf) ->
  (cmd = js "kill"
   /\ args = [match c_action cf with A_kill => js "-9" | _ => js "-15" end;
              String_of_number (c_pid cf)])
  \/ (cmd = js "sh" /\ c_action cf = A_restart).
Proof.
  intros H. destruct (dispatch_spawns w cf _ H) as [E|(Ha & _ & E)];
    inversion E; auto.
Qed.

(** X16.  Of the commands a key press launches, kill and sh serve a
    pending confirmation only: a kill is launched only by the key "y" with
    a confirmation pending, and it carries the signal of the action of that
    confirmation (-9 for kill, -15 otherwise) and its pid; sh is launched
    only by the key "y" with a restart pending.  A key press ends the
    process only on the key "q" in normal mode, with exit code 0: never
    while the filter is edited or a confirmation is pending.  (The [ps] of
    a refresh cycle is not among the effects: its answer is the [World].) *)
Theorem keypress_effects_guarded (k : KeyEvent) (w : World) (st : State) :
  (forall args,
      In (E_spawn (js "kill" :: args)) (snd (fst (keypress k w st))) ->
      exists cf,
        confirm st = Some cf /\ name k = js "y"
        /\ args = [match c_action cf with
                   | A_kill => js "-9" | _ => js "-15" end;
                   String_of_number (c_pid cf)])
  /\ (forall args,
         In (E_spawn (js "sh" :: args)) (snd (fst (keypress k w st))) ->
         exists cf,
           confirm st = Some cf /\ name k = js "y"
           /\ c_action cf = A_restart)
  /\ (forall code,
         snd (keypress k w st) = Exited code ->
         code = 0%Z /\ confirm st = None /\ filtering st = false
         /\ name k = js "q").
Proof.
  assert (Hout : forall s code, snd (refresh w s) <> Exited code).
  { intros s code. destruct (refresh_outcome w s) as [H|H]; rewrite H;
      discriminate. }
  unfold keypress, is_key.
  destruct (confirm st) as [cf|] eqn:Hc.
  { destruct (str_eqb (name k) (js "y")) eqn:Hy.
    - rewrite triple_refresh. cbn [fst snd]. apply str_eqb_eq in Hy.
      split; [|split].
      + intros args Hin. exists cf.
        split; [reflexivity|]. split; [exact Hy|].
        destruct (kill_or_shell w cf _ _ Hin) as [[_ H]|[H _]];
          [exact H | discriminate H].
      + intros args Hin. exists cf.
        split; [reflexivity|]. split; [exact Hy|].
        destruct (kill_or_shell w cf _ _ Hin) as [[H _]|[_ H]];
          [discriminate H | exact H].
      + intros code H. now apply Hout in H.
    - cbn [fst snd].
      split; [intros args []|split; [intros args []|discriminate]]. }
  destruct (filtering st) eqn:Hf.
  { repeat match goal with
           | |- context [if str_eqb (name k) ?s then _ else _] =>
               destruct (str_eqb (name k) s)
           end;
      try rewrite triple_refresh; cbn [fst snd];
      try (split; [intros args [] | split; [intros args []
                  | intros code H; now apply Hout in H]]).
    destruct (sequence k) as [[|ch [|? ?]]|];
      try destruct (negb (ctrl k) && negb (meta k));
      try rewrite triple_refresh; cbn [fst snd];
      (split; [intros args [] | split; [intros args []
              | intros code H; try discriminate; now apply Hout in H]]). }
  destruct (str_eqb (name k) (js "q")) eqn:Hq.
  { cbn [fst snd]. split; [|split].
    - intros args [H|[]]. discriminate.
    - intros args [H|[]]. discriminate.
    - intros code H. inversion H. apply str_eqb_eq in Hq. auto. }
  repeat match goal with
         | |- context [if ?b then _ else _] => destruct b
         end;
    try rewrite triple_refresh; cbn [fst snd];
    (split; [intros args [] | split; [intros args []
            | intros code H; try discriminate; now apply Hout in H]]).
Qed.


End DispatchFacts.


(** The wait of a restart is open to the keyboard.  The restart of
    syslogd is confirmed; during the 500 ms the keys "n", "j" and "K" are
    handled, which ask to kill zsh; the restart then launches the command
    line of zsh and cancels the confirmation asked for. *)
Example restart_wait_race :
  let asked := fst (fst (keypress (key_named "r") idle_world two_shown)) in
  let later := run_keys (List.map key_named ["n"; "j"; "K"]%string)
                        idle_world asked in
  option_map c_cmd (confirm asked) = Some (js "/usr/sbin/syslogd")
  /\ option_map (confirm_yes_begin idle_world asked) (confirm asked)
     = Some (Paused [E_spawn [js "kill"; js "-15"; js "1"]; E_sleep 500])
  /\ option_map c_action (confirm later) = Some A_kill
  /\ snd (fst (confirm_yes_resume idle_world later))
     = [E_spawn [js "sh"; js "-c"; js "/bin/zsh"]]
  /\ confirm (fst (fst (confirm_yes_resume idle_world later))) = None.
Proof. vm_compute. repeat split. Qed.

Section EditingFacts.
Context {host : Host}.

Lemma displayed_after_refresh (w : World) (st : State) (procs : list Process) :
  refreshing st = false -> destroyed st = false ->
  getProcesses w = Some procs ->
  displayed (fst (refresh w st))
  = applyFilter (filter st) (sortProcs procs (sortBy st) (sortAsc st)).
Proof.
  intros Hr Hd Hg. rewrite (refresh_success w st procs Hr Hd Hg).
  cbn [fst]. proj_simpl.
  destruct (ensureVisible_frame (after_fetch procs (set_refreshing true st)))
    as (H & _).
  rewrite H. unfold after_fetch. cbv zeta.
  match goal with |- context [if ?b then _ else _] => destruct b end;
    reflexivity.
Qed.

(** X18.  Editing the filter.  In filter mode a key that carries one
    character (and is not Return, Escape or Backspace, nor pressed with
    Ctrl or Meta) appends that character to the filter text, stays in
    filter mode and dispatches nothing; when the snapshot comes the list
    shown is the snapshot sorted and filtered by the new text.  After it
    Backspace gives the former text back, Escape empties the text and
    leaves filter mode, Return keeps the text and leaves filter mode. *)
Theorem filter_editing (k : KeyEvent) (ch : char) (w w' : World) (st : State) :
  confirm st = None -> filtering st = true ->
  sequence k = Some [ch] -> ctrl k = false -> meta k = false ->
  name k <> js "return" -> name k <> js "escape" ->
  name k <> js "backspace" ->
  filter (fst (fst (keypress k w st))) = filter st ++ [ch]
  /\ filtering (fst (fst (keypress k w st))) = true
  /\ snd (fst (keypress k w st)) = []
  /\ (forall procs,
         refreshing st = false -> destroyed st = false ->
         getProcesses w = Some procs ->
         displayed (fst (fst (keypress k w st)))
         = applyFilter (filter st ++ [ch])
                       (sortProcs procs (sortBy st) (sortAsc st)))
  /\ filter (fst (fst (keypress (key_named "backspace") w'
                                (fst (fst (keypress k w st))))))
     = filter st
  /\ (filter (fst (fst (keypress (key_named "escape") w'
                                 (fst (fst (keypress k w st)))))) = []
      /\ filtering (fst (fst (keypress (key_named "escape") w'
                                       (fst (fst (keypress k w st))))))
         = false)
  /\ (filter (fst (fst (keypress (key_named "return") w'
                                 (fst (fst (keypress k w st))))))
      = filter st ++ [ch]
      /\ filtering (fst (fst (keypress (key_named "return") w'
                                       (fst (fst (keypress k w st))))))
         = false).
Proof.
  intros Hc Hf Hseq Hctrl Hmeta Hn1 Hn2 Hn3.
  assert (H1 : keypress k w st
               = (fst (refresh w (set_filter (filter st ++ [ch]) st)), [],
                  snd (refresh w (set_filter (filter st ++ [ch]) st)))).
  { unfold keypress, is_key.
    rewrite Hc, Hf, (str_eqb_neq _ _ Hn1), (str_eqb_neq _ _ Hn2),
      (str_eqb_neq _ _ Hn3), Hseq, Hctrl, Hmeta.
    cbn [negb andb]. apply triple_refresh. }
  rewrite H1. cbn [fst snd].
  set (st0 := set_filter (filter st ++ [ch]) st).
  destruct (refresh_frame w st0) as (Hsb & Hsa & Hfl & Hfg & Hcf & _).
  subst st0. proj_simpl.
  set (st1 := fst (refresh w (set_filter (filter st ++ [ch]) st))) in *.
  assert (Hc1 : confirm st1 = None) by congruence.
  assert (Hf1 : filtering st1 = true) by congruence.
  split; [exact Hfl|]. split; [exact Hf1|]. split; [reflexivity|].
  split.
  { intros procs Hr Hd Hg. subst st1.
    rewrite (displayed_after_refresh w _ procs); proj_simpl; auto. }
  assert (Hkey : forall s : string,
             keypress (key_named s) w' st1
             = if str_eqb (js s) (js "return")
               then (fst (refresh w' (set_filtering false st1)), [],
                     snd (refresh w' (set_filtering false st1)))
               else if str_eqb (js s) (js "escape")
               then (fst (refresh w' (set_filter [] (set_filtering false st1))),
                     [],
                     snd (refresh w' (set_filter [] (set_filtering false st1))))
               else if str_eqb (js s) (js "backspace")
               then (fst (refresh w' (set_filter (slice_0_m1 (filter st1)) st1)),
                     [],
                     snd (refresh w' (set_filter (slice_0_m1 (filter st1)) st1)))
               else (st1, [], Returned)).
  { intros s. unfold keypress, is_key. rewrite Hc1, Hf1.
    cbn [name key_named sequence].
    repeat match goal with
           | |- context [if ?b then _ else _] =>
               destruct b; [try apply triple_refresh; reflexivity|]
           end.
    reflexivity. }
  rewrite !Hkey.
  change (str_eqb (js "backspace") (js "return")) with false.
  change (str_eqb (js "backspace") (js "escape")) with false.
  change (str_eqb (js "backspace") (js "backspace")) with true.
  change (str_eqb (js "escape") (js "return")) with false.
  change (str_eqb (js "escape") (js "escape")) with true.
  change (str_eqb (js "return") (js "return")) with true.
  cbv iota. cbn [fst].
  destruct (refresh_frame w' (set_filter (slice_0_m1 (filter st1)) st1))
    as (_ & _ & Hb & _).
  destruct (refresh_frame w' (set_filter [] (set_filtering false st1)))
    as (_ & _ & He1 & He2 & _).
  destruct (refresh_frame w' (set_filtering false st1))
    as (_ & _ & Hr1 & Hr2 & _).
  proj_simpl.
  split; [|split; [split|split]]; try assumption; try congruence.
  rewrite Hb, Hfl. unfold slice_0_m1. apply removelast_last.
Qed.

Lemma press_sort_cycle (k : KeyEvent) (w : World) (st : State) :
  confirm st = None -> filtering st = false -> name k = js "s" ->
  sortBy (fst (fst (keypress k w st))) = cycle_successor (sortBy st)
  /\ sortAsc (fst (fst (keypress k w st)))
     = default_ascending (cycle_successor (sortBy st))
  /\ confirm (fst (fst (keypress k w st))) = None
  /\ filtering (fst (fst (keypress k w st))) = false.
Proof.
  intros Hc Hf Hk. unfold keypress, is_key. rewrite Hc, Hf, Hk. cbn.
  rewrite fst_refresh_triple.
  match goal with
  | |- context [refresh w ?s] =>
      destruct (refresh_frame w s) as (H1 & H2 & _ & H4 & H5 & _)
  end.
  rewrite H1, H2, H4, H5. proj_simpl.
  repeat split; auto; destruct (sortBy st); reflexivity.
Qed.

Lemma press_sort_flip (k : KeyEvent) (w : World) (st : State) :
  confirm st = None -> filtering st = false -> name k = js "S" ->
  sortBy (fst (fst (keypress k w st))) = sortBy st
  /\ sortAsc (fst (fst (keypress k w st))) = negb (sortAsc st)
  /\ confirm (fst (fst (keypress k w st))) = None
  /\ filtering (fst (fst (keypress k w st))) = false.
Proof.
  intros Hc Hf Hk. unfold keypress, is_key. rewrite Hc, Hf, Hk. cbn.
  rewrite fst_refresh_triple.
  match goal with
  | |- context [refresh w ?s] =>
      destruct (refresh_frame w s) as (H1 & H2 & _ & H4 & H5 & _)
  end.
  rewrite H1, H2, H4, H5. proj_simpl. auto.
Qed.

(** X19.  The sort keys compose as a cycle and a toggle.  In normal mode
    five presses of the sort-cycle key bring the sort field back to where
    it was, with the direction that field gets from the cycle (ascending
    for pid and command, descending otherwise); two presses of the flip key
    leave field and direction as they were.  This holds whatever the
    snapshots in between. *)
Theorem sort_keys_compose (w : World) (st : State) :
  confirm st = None -> filtering st = false ->
  sortBy (run_keys (repeat (key_named "s") 5) w st) = sortBy st
  /\ sortAsc (run_keys (repeat (key_named "s") 5) w st)
     = default_ascending (sortBy st)
  /\ sortBy (run_keys (repeat (key_named "S") 2) w st) = sortBy st
  /\ sortAsc (run_keys (repeat (key_named "S") 2) w st) = sortAsc st.
Proof.
  intros Hc Hf. cbn [repeat run_keys].
  split; [|split].
  - destruct (press_sort_cycle (key_named "s") w st Hc Hf eq_refl)
      as (A1 & _ & C1 & F1).
    destruct (press_sort_cycle (key_named "s") w _ C1 F1 eq_refl)
      as (A2 & _ & C2 & F2).
    destruct (press_sort_cycle (key_named "s") w _ C2 F2 eq_refl)
      as (A3 & _ & C3 & F3).
    destruct (press_sort_cycle (key_named "s") w _ C3 F3 eq_refl)
      as (A4 & _ & C4 & F4).
    destruct (press_sort_cycle (key_named "s") w _ C4 F4 eq_refl)
      as (A5 & _ & _ & _).
    rewrite A5, A4, A3, A2, A1. now destruct (sortBy st).
  - destruct (press_sort_cycle (key_named "s") w st Hc Hf eq_refl)
      as (A1 & _ & C1 & F1).
    destruct (press_sort_cycle (key_named "s") w _ C1 F1 eq_refl)
      as (A2 & _ & C2 & F2).
    destruct (press_sort_cycle (key_named "s") w _ C2 F2 eq_refl)
      as (A3 & _ & C3 & F3).
    destruct (press_sort_cycle (key_named "s") w _ C3 F3 eq_refl)
      as (A4 & _ & C4 & F4).
    destruct (press_sort_cycle (key_named "s") w _ C4 F4 eq_refl)
      as (_ & B5 & _ & _).
    rewrite B5, A4, A3, A2, A1. now destruct (sortBy st).
  - destruct (press_sort_flip (key_named "S") w st Hc Hf eq_refl)
      as (A1 & B1 & C1 & F1).
    destruct (press_sort_flip (key_named "S") w _ C1 F1 eq_refl)
      as (A2 & B2 & _ & _).
    rewrite A2, A1, B2, B1. split; [reflexivity|apply negb_involutive].
Qed.
End EditingFacts.

Lemma filter_editing_witness :
  confirm editing_state = None /\ filtering editing_state = true
  /\ filter (fst (fst (keypress (key_char 115%N) idle_world editing_state)))
     = js "sys"
  /\ filter (fst (fst (keypress (key_named "backspace") idle_world
              (fst (fst (keypress (key_char 115%N) idle_world
                                  editing_state))))))
     = js "sy".
Proof.
  split; [reflexivity|]. split; [reflexivity|].
  destruct (filter_editing (key_char 115%N) 115%N idle_world idle_world
              editing_state eq_refl eq_refl eq_refl eq_refl eq_refl
              ltac:(intros E; vm_compute in E; discriminate E)
              ltac:(intros E; vm_compute in E; discriminate E)
              ltac:(intros E; vm_compute in E; discriminate E))
    as (H1 & _ & _ & _ & H2 & _).
  split; [exact H1 | exact H2].
Defined.

Lemma sort_keys_compose_witness :
  confirm browsing_state = None /\ filtering browsing_state = false
  /\ sortBy (run_keys (repeat (key_named "s") 5) idle_world browsing_state)
     = F_pid.
Proof.
  split; [reflexivity|]. split; [reflexivity|].
  exact (proj1 (sort_keys_compose idle_world browsing_state eq_refl eq_refl)).
Defined.


Lemma ensureVisible_fixed (st : State) :
  (1 <= viewportH st)%Z ->
  (scrollOffset st <= selected st < scrollOffset st + viewportH st)%Z ->
  (0 <= scrollOffset st <= Z.max 0 (len st - viewportH st))%Z ->
  ensureVisible st = st.
Proof.
  destruct st as [sb sa disp sel off flt fing cf rf ds h ct cv].
  unfold ensureVisible, clampScroll, len, set_scrollOffset. cbn.
  intros Hh Hwin Hoff.
  destruct (sel <? off)%Z eqn:E1; [to_Z_props; lia|].
  destruct (sel >=? off + h)%Z eqn:E2; [to_Z_props; lia|]. cbn.
  destruct (off >? Z.max 0 (Z.of_nat (List.length disp) - h))%Z eqn:E3;
    [to_Z_props; lia|]. cbn.
  destruct (off <? 0)%Z eqn:E4; [to_Z_props; lia|]. reflexivity.
Qed.

(** X20.  The scroll offset follows the selection and moves no further
    than it must.  On a state whose selection and scroll offset are within
    their bounds (viewport of at least one row), [ensureVisible] leaves the
    selection alone and sets the scroll offset to the selection when the
    selection is above the viewport, to the offset that puts the selection
    on the last row when it is below, and leaves it otherwise; done twice
    it does nothing more. *)
Theorem ensureVisible_follows_selection (st : State) :
  (1 <= viewportH st)%Z ->
  (0 <= selected st <= Z.max 0 (len st - 1))%Z ->
  (0 <= scrollOffset st <= Z.max 0 (len st - viewportH st))%Z ->
  selected (ensureVisible st) = selected st
  /\ scrollOffset (ensureVisible st)
     = (if (selected st <? scrollOffset st)%Z then selected st
        else if (selected st >=? scrollOffset st + viewportH st)%Z
             then selected st - viewportH st + 1
             else scrollOffset st)%Z
  /\ ((scrollOffset st <= selected st < scrollOffset st + viewportH st)%Z ->
      ensureVisible st = st)
  /\ ensureVisible (ensureVisible st) = ensureVisible st.
Proof.
  intros Hh Hsel Hoff.
  destruct (ensureVisible_frame st) as (Hd & Hv & Hs & _).
  split; [exact Hs|]. split; [|split].
  - clear Hd Hv Hs.
    destruct st as [sb sa disp sel off flt fing cf rf ds h ct cv].
    unfold ensureVisible, clampScroll, len, set_scrollOffset in *.
    cbn in *.
    destruct (sel <? off)%Z eqn:E1; cbn;
      [|destruct (sel >=? off + h)%Z eqn:E2; cbn];
      match goal with
      | |- context [(?a >? ?b)%Z] => destruct (a >? b)%Z eqn:E3; cbn
      end;
      match goal with
      | |- context [(?a <? ?b)%Z] => destruct (a <? b)%Z eqn:E4; cbn
      end; to_Z_props; lia.
  - intros Hwin. now apply ensureVisible_fixed.
  - apply ensureVisible_fixed.
    + now rewrite Hv.
    + destruct (ensureVisible_inv st Hh Hsel) as (_ & _ & H).
      rewrite Hv, Hs in H. rewrite Hv, Hs. lia.
    + destruct (ensureVisible_inv st Hh Hsel) as (_ & H & _).
      exact H.
Qed.

Lemma ensureVisible_follows_selection_witness :
  (1 <= viewportH three_in_two)%Z
  /\ (0 <= selected three_in_two <= Z.max 0 (len three_in_two - 1))%Z
  /\ (0 <= scrollOffset three_in_two
      <= Z.max 0 (len three_in_two - viewportH three_in_two))%Z
  /\ scrollOffset (ensureVisible three_in_two) = 1%Z.
Proof.
  assert (H1 : (1 <= viewportH three_in_two)%Z) by (vm_compute; discriminate).
  assert (H2 : (0 <= selected three_in_two
                <= Z.max 0 (len three_in_two - 1))%Z)
    by (vm_compute; split; discriminate).
  assert (H3 : (0 <= scrollOffset three_in_two
                <= Z.max 0 (len three_in_two - viewportH three_in_two))%Z)
    by (vm_compute; split; discriminate).
  split; [exact H1|]. split; [exact H2|]. split; [exact H3|].
  exact (proj1 (proj2 (ensureVisible_follows_selection three_in_two H1 H2 H3))).
Defined.

Lemma occurs_trans (f f' s : jsstring) :
  occurs f f' -> occurs f' s -> occurs f s.
Proof.
  intros (a & b & ->) (a' & b' & ->).
  exists (a' ++ a), (b ++ b'). now rewrite <- !app_assoc.
Qed.

Lemma filter_filter_implied {A : Type} (p q : A -> bool) (l : list A) :
  (forall x, p x = true -> q x = true) ->
  List.filter p (List.filter q l) = List.filter p l.
Proof.
  intros H. induction l as [|x l IH]; simpl; [reflexivity|].
  destruct (q x) eqn:Hq; simpl.
  - now rewrite IH.
  - destruct (p x) eqn:Hp; [|exact IH].
    rewrite (H x Hp) in Hq. discriminate.
Qed.

Section NarrowingFacts.
Context {host : Host}.

(** X21.  Live filtering narrows.  When the lowered new query contains the
    lowered old one (as when a character is typed after it on a host whose
    lowering goes character by character), every record that passes the
    new query passed the old one, and filtering the old result by the new
    query gives what filtering the whole list by the new query gives. *)
Theorem applyFilter_narrows (q q' : jsstring) (records : list Process) :
  q' <> [] -> occurs (toLowerCase q) (toLowerCase q') ->
  applyFilter q' (applyFilter q records) = applyFilter q' records
  /\ (forall p, In p (applyFilter q' records) -> In p (applyFilter q records)).
Proof.
  intros Hq' Hocc.
  assert (Himp : forall p,
             matchesFilter (toLowerCase q') p = true ->
             matchesFilter (toLowerCase q) p = true).
  { intros p. unfold matchesFilter.
    rewrite !orb_true_iff, !includes_spec.
    intros [[H|H]|H]; [left; left | left; right | right];
      eapply occurs_trans; eauto. }
  destruct q' as [|c' q']; [contradiction|].
  assert (Heq : applyFilter (c' :: q') (applyFilter q records)
                = applyFilter (c' :: q') records).
  { destruct q as [|c0 q]; [reflexivity|].
    unfold applyFilter. now apply filter_filter_implied. }
  split; [exact Heq|].
  intros p Hp. rewrite <- Heq in Hp.
  unfold applyFilter at 1 in Hp. now apply filter_In in Hp.
Qed.
End NarrowingFacts.

Lemma applyFilter_narrows_witness :
  js "sys" <> [] /\ occurs (toLowerCase (js "sy")) (toLowerCase (js "sys"))
  /\ applyFilter (js "sys") (applyFilter (js "sy") scenario_records)
     = applyFilter (js "sys") scenario_records.
Proof.
  assert (H1 : js "sys" <> []) by discriminate.
  assert (H2 : occurs (toLowerCase (js "sy")) (toLowerCase (js "sys")))
    by (exists [], (js "s"); reflexivity).
  split; [exact H1|]. split; [exact H2|].
  exact (proj1 (applyFilter_narrows (js "sy") (js "sys") scenario_records H1 H2)).
Defined.

(** X22.  A walk through the list stays in the list.  Any sequence of
    navigation keys (line down and up, half page down and up, top and
    bottom) pressed in normal mode keeps the selection inside the list and
    inside the viewport, changes neither the list nor the viewport height
    and leaves the program in normal mode, provided the list is not empty
    or half page down is not among the keys. *)
Theorem navigation_walk {host : Host} (ks : list KeyEvent) (w : World) :
  forall st,
    confirm st = None -> filtering st = false ->
    Forall (fun k => In (name k) navigation_keys) ks ->
    (displayed st <> [] \/ Forall (fun k => name k <> js "d") ks) ->
    (1 <= viewportH st)%Z -> view_inv st ->
    view_inv (run_keys ks w st)
    /\ displayed (run_keys ks w st) = displayed st
    /\ viewportH (run_keys ks w st) = viewportH st
    /\ confirm (run_keys ks w st) = None
    /\ filtering (run_keys ks w st) = false.
Proof.
  induction ks as [|k ks IH]; intros st Hc Hf Hks Hd Hh Hinv;
    cbn [run_keys].
  - repeat split; auto; apply Hinv.
  - inversion Hks as [|? ? Hk Hks']; subst.
    assert (Hd1 : displayed st <> [] \/ name k <> js "d").
    { destruct Hd as [Hd|Hd]; [now left|right]. now inversion Hd. }
    destruct (navigation_step k w st Hc Hf Hk Hd1 Hh Hinv)
      as (Hi & Hdisp & Hvh & Hc' & Hf').
    destruct (IH (fst (fst (keypress k w st))) Hc' Hf' Hks')
      as (R1 & R2 & R3 & R4 & R5).
    + rewrite Hdisp. destruct Hd as [Hd|Hd]; [now left|right].
      now inversion Hd.
    + now rewrite Hvh.
    + exact Hi.
    + split; [exact R1|]. split; [now rewrite R2|].
      split; [now rewrite R3|]. split; assumption.
Qed.

Lemma navigation_walk_witness :
  confirm browsing_state = None /\ filtering browsing_state = false
  /\ (1 <= viewportH browsing_state)%Z /\ view_inv browsing_state
  /\ view_inv (run_keys (List.map key_named
                           ["j"; "j"; "G"; "k"; "d"; "u"; "g"]%string)
                        idle_world browsing_state).
Proof.
  assert (Hv : view_inv browsing_state)
    by (vm_compute; repeat split; discriminate).
  assert (Hh : (1 <= viewportH browsing_state)%Z) by (vm_compute; discriminate).
  split; [reflexivity|]. split; [reflexivity|]. split; [exact Hh|].
  split; [exact Hv|].
  refine (proj1 (@navigation_walk asciiHost _ idle_world browsing_state
                   eq_refl eq_refl _ (or_introl _) Hh Hv)).
  - repeat (apply Forall_cons; [vm_compute; auto 10|]). apply Forall_nil.
  - discriminate.
Defined.

(** X23.  A refresh cycle that gets its snapshot returns; it shows the
    snapshot sorted by the current field and direction and filtered by the
    current query, pulls a selection that is past the end back to the last
    record (to 0 on an empty list) and leaves any other selection where it
    was, brings the selection into the viewport, and lowers the
    [refreshing] flag again. *)
Theorem refresh_shows_snapshot {host : Host}
  (w : World) (st : State) (procs : list Process) :
  refreshing st = false -> destroyed st = false ->
  getProcesses w = Some procs ->
  (1 <= viewportH st)%Z -> (0 <= selected st)%Z ->
  snd (refresh w st) = Returned
  /\ view_inv (fst (refresh w st))
  /\ displayed (fst (refresh w st))
     = applyFilter (filter st) (sortProcs procs (sortBy st) (sortAsc st))
  /\ selected (fst (refresh w st))
     = Z.min (selected st) (Z.max 0 (len (fst (refresh w st)) - 1))
  /\ refreshing (fst (refresh w st)) = false.
Proof.
  intros Hr Hd Hg Hh Hs.
  destruct (refresh_establishes_bounds w st procs Hr Hd Hg Hh Hs)
    as [Hinv Hdisp].
  split; [now rewrite (refresh_success w st procs Hr Hd Hg)|].
  split; [exact Hinv|]. split; [exact Hdisp|].
  unfold len. rewrite Hdisp.
  rewrite (refresh_success w st procs Hr Hd Hg). cbn [fst].
  split; [|reflexivity].
  change (selected (set_refreshing false ?x)) with (selected x).
  rewrite (proj1 (proj2 (proj2 (ensureVisible_frame _)))).
  unfold after_fetch. cbv zeta. unfold len.
  cbn [displayed selected filter sortBy sortAsc set_displayed set_refreshing].
  set (n := Z.of_nat (List.length
                (applyFilter (filter st)
                   (sortProcs procs (sortBy st) (sortAsc st))))).
  destruct (selected st >=? n)%Z eqn:E; to_Z_props;
    cbn [selected set_selected set_displayed set_refreshing]; lia.
Qed.

Lemma refresh_shows_snapshot_witness :
  refreshing (initial 29) = false /\ destroyed (initial 29) = false
  /\ getProcesses syslogd_world = Some [record_of syslogd_line]
  /\ (1 <= viewportH (initial 29))%Z /\ (0 <= selected (initial 29))%Z
  /\ view_inv (fst (refresh syslogd_world (initial 29))).
Proof.
  assert (Hg : getProcesses syslogd_world = Some [record_of syslogd_line])
    by (vm_compute; reflexivity).
  assert (Hh : (1 <= viewportH (initial 29))%Z) by (vm_compute; discriminate).
  assert (Hs : (0 <= selected (initial 29))%Z) by (vm_compute; discriminate).
  split; [reflexivity|]. split; [reflexivity|]. split; [exact Hg|].
  split; [exact Hh|]. split; [exact Hs|].
  exact (proj1 (proj2 (@refresh_shows_snapshot asciiHost syslogd_world
                         (initial 29) _ eq_refl eq_refl Hg Hh Hs))).
Defined.
